(** * FractionalCore: the expression-diversity codec of src/fractional-core.js

    A shallow embedding of the [FractionalCore] class: the covenant gate,
    the two expression tables, [encode], [verify], [decode],
    [generateIdentitySet] and the helpers they call, followed by the
    properties of the codec.

    Modelling choices
    - A JavaScript number is a binary64 float. Where the source computes with
      fractions of the catalog we use Rocq's primitive floats, which are the
      same IEEE 754 binary64 numbers. Where the source counts (indices,
      character codes, [verificationCount]) we use [Z] or [nat], binary64
      arithmetic being exact on integers below 2^53. The one product of the
      source that can pass 2^53, the first step of the generator of
      [generateIdentitySet] on a very long name, is rounded as binary64
      rounds it.
    - A template literal [`${v}`] throws a TypeError for a value that has
      no text form; [acceptCovenant] and [logVerification] print the
      institution so, and throw where the code throws.
    - The text given to [encode] and returned by [decode] is a sequence of
      UTF-16 code units ([list Z]), since [charCodeAt] and
      [String.fromCharCode] work on code units.
    - A cell of a grid and the text of an expression are Rocq strings holding
      the bytes of the source file; the code only compares them with [===].
    - The bit string built by [encode] and [decode] is a [list ascii].
    - Instance fields and the console are threaded through a state and
      exception monad. *)

From Stdlib Require Import ZArith String Ascii List Bool Arith Lia.
From Stdlib Require Import Floats.PrimFloat Uint63 Floats.FloatOps Floats.SpecFloat.
From Equations Require Import Equations.
Import ListNotations.

Set Warnings "-inexact-float,-register-all".

Local Open Scope string_scope.
Local Open Scope list_scope.

(** ** JavaScript values and built-ins used by the class *)

Module Js.

Inductive Val :=
| VUndefined
| VNull
| VBool (b : bool)
| VNum (x : float)
| VStr (s : string)
| VObj (fields : list (string * Val)).

(** ToBoolean. *)
Definition truthy (v : Val) : bool :=
  match v with
  | VUndefined | VNull => false
  | VBool b => b
  | VNum x => negb (PrimFloat.eqb x 0 || negb (PrimFloat.eqb x x))
  | VStr s => negb (String.eqb s "")
  | VObj _ => true
  end.

Inductive Exn :=
| Error (message : string)
| TypeError.

Fixpoint assoc (k : string) (fields : list (string * Val)) : Val :=
  match fields with
  | [] => VUndefined
  | (k', v) :: rest => if String.eqb k' k then v else assoc k rest
  end.

(** [v.k] for a key that no primitive wrapper defines: reading a property of
    [null] or [undefined] is a TypeError, a primitive has no such property. *)
Definition get_prop (v : Val) (k : string) : Exn + Val :=
  match v with
  | VUndefined | VNull => inl TypeError
  | VObj fields => inr (assoc k fields)
  | _ => inr VUndefined
  end.

(** Whether an object has an own property [k]. *)
Definition has_own (k : string) (fields : list (string * Val)) : bool :=
  existsb (fun field => String.eqb (fst field) k) fields.

(** Whether [`${v}`] has a value. Primitives have a text form, and so has an
    object that inherits [toString] ("[object Object]"). No value of [Val]
    is callable, so an object with an own property [toString] has none:
    neither that property nor the inherited [valueOf], which returns the
    object, gives a primitive, and the template literal throws a TypeError. *)
Definition printable (v : Val) : bool :=
  match v with
  | VObj fields => negb (has_own "toString" fields)
  | _ => true
  end.

(** [arr[i]]: [undefined] out of range. *)
Definition array_get {A} (arr : list A) (i : nat) : option A := nth_error arr i.

(** [s.slice(i, j)] for [0 <= i], on arrays and strings alike. *)
Definition slice {A} (l : list A) (i j : nat) : list A :=
  firstn (j - i) (skipn i l).

(** [n.toString(2)] for an integer [n]. *)
Fixpoint pos_digits (p : positive) (acc : list ascii) : list ascii :=
  match p with
  | xH => "1"%char :: acc
  | xO q => pos_digits q ("0"%char :: acc)
  | xI q => pos_digits q ("1"%char :: acc)
  end.

Definition toString2 (n : Z) : list ascii :=
  match n with
  | Z0 => ["0"%char]
  | Zpos p => pos_digits p []
  | Zneg p => "-"%char :: pos_digits p []
  end.

(** [s.padStart(n, fill)] for a one-character [fill]. *)
Definition padStart (n : nat) (fill : ascii) (s : list ascii) : list ascii :=
  repeat fill (n - length s) ++ s.

(** [parseInt(s, 2)] on a string without sign or leading blanks: the value of
    the longest prefix of binary digits, [None] (NaN) when it is empty. *)
Fixpoint parse_digits (s : list ascii) (acc : option Z) : option Z :=
  match s with
  | c :: rest =>
      if Ascii.eqb c "0" then
        parse_digits rest (Some (2 * match acc with Some a => a | None => 0 end)%Z)
      else if Ascii.eqb c "1" then
        parse_digits rest (Some (2 * match acc with Some a => a | None => 0 end + 1)%Z)
      else acc
  | [] => acc
  end.

Definition parseInt2 (s : list ascii) : option Z := parse_digits s None.

(** [String.fromCharCode(n)]: ToUint16, with NaN sent to 0. *)
Definition fromCharCode (n : option Z) : Z :=
  match n with
  | Some k => (k mod 65536)%Z
  | None => 0%Z
  end.

(** [Math.pow(b, e)] for a natural exponent, by repeated multiplication;
    ECMAScript fixes [Math.pow(b, 0) = 1], the only call the class makes. *)
Fixpoint Math_pow (b : float) (e : nat) : float :=
  match e with
  | O => 1%float
  | S e' => (b * Math_pow b e')%float
  end.

(** The number of a nonnegative integer below 2^53, and the integer of an
    integer-valued finite number. *)
Definition number_of_Z (z : Z) : float := PrimFloat.of_uint63 (Uint63.of_Z z).

Definition Z_of_number (x : float) : Z :=
  match Prim2SF x with
  | S754_finite negative m e =>
      let v := Z.shiftl (Zpos m) e in
      if negative then (- v)%Z else v
  | _ => 0%Z
  end.

(** [x * y + z] on nonnegative integers below 2^53, as binary64 computes
    it: exactly when the result is below 2^53, with the roundings of the
    product and of the sum otherwise. *)
Definition mul_add (x y z : Z) : Z :=
  let exact := (x * y + z)%Z in
  if (exact <? 2 ^ 53)%Z then exact
  else Z_of_number (number_of_Z x * number_of_Z y + number_of_Z z)%float.

End Js.

Import Js.

(** ** The class *)

Module FC.

Definition FC_ORIGIN : string :=
  "Lev Goukassian, 2025: Truth is fractional. Hope is not.".

(** One entry of an expression table: [{ expr, latex, value, note }]. *)
Record Fraction := {
  expr : string;
  latex : string;
  value : unit -> float;
  note : option string
}.

(** A line written by [console.log]. The timestamp line carries no payload:
    it is read from the wall clock and nothing is computed from it. *)
Inductive LogLine :=
| LogCovenantAccepted (institutionId : Val)
| LogMemorial (origin : string)
| LogVerificationNo (n : Z)
| LogInstitution (institutionId : Val)
| LogOperation (operation : string)
| LogTimestamp
| LogContributing
| LogLegacy (origin : string).

(** The instance fields set by the constructor, and the console. *)
Record State := {
  covenantAccepted : bool;
  institutionId : Val;
  verificationCount : Z;
  console : list LogLine
}.

(** [new FractionalCore()], on a console that already shows [out]. *)
Definition constructor (out : list LogLine) : State :=
  {| covenantAccepted := false;
     institutionId := VNull;
     verificationCount := 0%Z;
     console := out |}.

(** *** State and exception monad *)

Inductive Outcome (A : Type) :=
| Return (a : A)
| Throw (e : Exn)
| Diverge.
Arguments Return {A} a.
Arguments Throw {A} e.
Arguments Diverge {A}.

Definition M (A : Type) : Type := State -> Outcome A * State.

Definition ret {A} (a : A) : M A := fun s => (Return a, s).

Definition bind {A B} (m : M A) (k : A -> M B) : M B :=
  fun s =>
    match m s with
    | (Return a, s') => k a s'
    | (Throw e, s') => (Throw e, s')
    | (Diverge, s') => (Diverge, s')
    end.

Definition throw {A} (e : Exn) : M A := fun s => (Throw e, s).

Definition get : M State := fun s => (Return s, s).

Definition put (s : State) : M unit := fun _ => (Return tt, s).

(** [try { body } catch (error) { handler }]. *)
Definition try_catch {A} (body : M A) (handler : Exn -> M A) : M A :=
  fun s =>
    match body s with
    | (Throw e, s') => handler e s'
    | r => r
    end.

(** The result of a loop: [None] stands for a loop that never ends. *)
Definition of_loop {A} (r : option A) : M A :=
  fun s =>
    match r with
    | Some a => (Return a, s)
    | None => (Diverge, s)
    end.

Notation "x <- m ;; k" := (bind m (fun x => k))
  (at level 61, m at next level, right associativity).
Notation "m ;;; k" := (bind m (fun _ => k))
  (at level 61, right associativity).

(** The evaluation of [`${v}`] inside an argument of [console.log]. *)
Definition template (v : Val) : M unit :=
  if printable v then ret tt else throw TypeError.

Definition console_log (lines : list LogLine) : M unit :=
  s <- get ;;
  put {| covenantAccepted := covenantAccepted s;
         institutionId := institutionId s;
         verificationCount := verificationCount s;
         console := console s ++ lines |}.

Fixpoint mapM {A B} (f : A -> M B) (l : list A) : M (list B) :=
  match l with
  | [] => ret []
  | a :: rest =>
      b <- f a ;;
      bs <- mapM f rest ;;
      ret (b :: bs)
  end.

(** *** acceptCovenant *)

Definition acceptCovenant (id : Val) (covenantAgreement : Val) : M bool :=
  match get_prop covenantAgreement "humanitarianCommitment" with
  | inl e => throw e
  | inr commitment =>
      if negb (truthy commitment) then
        throw (Error "Covenant requires commitment to humanity's betterment")
      else
        s <- get ;;
        put {| covenantAccepted := true;
               institutionId := id;
               verificationCount := verificationCount s;
               console := console s |} ;;;
        template id ;;;
        console_log [LogCovenantAccepted id] ;;;
        console_log [LogMemorial FC_ORIGIN] ;;;
        ret true
  end.

(** *** The expression tables *)

Fixpoint factorial (n : nat) : float :=
  match n with
  | O => 1%float
  | S m => (PrimFloat.of_uint63 (Uint63.of_Z (Z.of_nat n)) * factorial m)%float
  end.

Definition fraction (e l : string) (v : unit -> float) : Fraction :=
  {| expr := e; latex := l; value := v; note := None |}.

Definition noted (e l : string) (v : unit -> float) (n : string) : Fraction :=
  {| expr := e; latex := l; value := v; note := Some n |}.

Definition getStandardFractions : list Fraction :=
  [ fraction "√1" "\sqrt{1}" (fun _ => PrimFloat.sqrt 1);
    fraction "0!" "0!" (fun _ => factorial 0);
    fraction "|−1|" "|{-1}|" (fun _ => PrimFloat.abs (-1));
    fraction "7^0" "7^0" (fun _ => Math_pow 7 0);
    fraction "(2+2)/4" "\frac{2+2}{4}" (fun _ => (2 + 2) / 4)%float;
    fraction "1/1" "\frac{1}{1}" (fun _ => 1 / 1)%float;
    fraction "2-1" "2-1" (fun _ => 2 - 1)%float;
    fraction "√4/2" "\frac{\sqrt{4}}{2}" (fun _ => PrimFloat.sqrt 4 / 2)%float;
    fraction "(3-1)/2" "\frac{3-1}{2}" (fun _ => (3 - 1) / 2)%float;
    fraction "√9/3" "\frac{\sqrt{9}}{3}" (fun _ => PrimFloat.sqrt 9 / 3)%float;
    fraction "0.25*4" "0.25 \times 4" (fun _ => 0.25 * 4)%float;
    fraction "0.1*10" "0.1 \times 10" (fun _ => 0.1 * 10)%float;
    fraction "√16/4" "\frac{\sqrt{16}}{4}" (fun _ => PrimFloat.sqrt 16 / 4)%float;
    fraction "√25/5" "\frac{\sqrt{25}}{5}" (fun _ => PrimFloat.sqrt 25 / 5)%float;
    fraction "(6-4)/2" "\frac{6-4}{2}" (fun _ => (6 - 4) / 2)%float;
    fraction "√36/6" "\frac{\sqrt{36}}{6}" (fun _ => PrimFloat.sqrt 36 / 6)%float ].

(** The last but one entry is [Math.exp(Math.log(1))]: ECMAScript fixes
    [Math.log(1) = +0] and [Math.exp(+0) = 1]. No method of the class calls
    the [value] of an advanced entry. *)
Definition getAdvancedFractions : list Fraction :=
  [ noted "∫(dx)" "\int dx" (fun _ => 1%float) "Definite integral from 0 to 1";
    fraction "lim(x→1) x" "\lim_{x \to 1} x" (fun _ => 1%float);
    noted "sin²θ + cos²θ" "\sin^2\theta + \cos^2\theta" (fun _ => 1%float)
      "θ = any angle";
    fraction "e^(ln1)" "e^{\ln 1}" (fun _ => 1%float);
    noted "det(I)" "\det(I)" (fun _ => 1%float) "Determinant of identity matrix" ].

(** *** Helper methods *)

(** [formatAsGrid(encoded, width)]: the loop [for (i = 0; i < length; i +=
    width)]. With [width = 0] the index never advances and the loop does not
    end ([None]). *)
Equations? formatAsGrid_loop (encoded : list string) (width i : nat)
    (grid : list (list string)) : option (list (list string))
    by wf (length encoded - i) lt :=
  formatAsGrid_loop encoded width i grid with lt_dec i (length encoded) => {
    | right _ := Some grid;
    | left _ with width => {
      | O := None;
      | S w :=
          formatAsGrid_loop encoded (S w) (i + S w)
            (grid ++ [slice encoded i (i + S w)]) } }.
Proof. lia. Qed.

Definition formatAsGrid (encoded : list string) (width : nat)
  : option (list (list string)) :=
  formatAsGrid_loop encoded width 0 [].

(** The record returned by [logVerification], without its timestamp. *)
Record Verification := {
  verificationId : Z;
  institution : Val;
  operation : string;
  covenantTriggered : bool
}.

(** [logVerification(operation, data)]; [data] is not used by the method. *)
Definition logVerification {D : Type} (op : string) (data : D) : M Verification :=
  s <- get ;;
  put {| covenantAccepted := covenantAccepted s;
         institutionId := institutionId s;
         verificationCount := (verificationCount s + 1)%Z;
         console := console s |} ;;;
  s <- get ;;
  console_log [LogVerificationNo (verificationCount s)] ;;;
  template (institutionId s) ;;;
  console_log [ LogInstitution (institutionId s);
                LogOperation op;
                LogTimestamp;
                LogContributing;
                LogLegacy FC_ORIGIN ] ;;;
  ret {| verificationId := verificationCount s;
         institution := institutionId s;
         operation := op;
         covenantTriggered := true |}.

(** *** encode *)

(** The loop [for (let bit of binary)], with its two variables. *)
Fixpoint encode_loop (fractions : list Fraction) (binary : list ascii)
    (fractionIndex : nat) (encoded : list string) : M (list string) :=
  match binary with
  | [] => ret encoded
  | bit :: rest =>
      if Ascii.eqb bit "1" then
        match array_get fractions (fractionIndex mod length fractions) with
        | Some fraction =>
            encode_loop fractions rest (fractionIndex + 1)
              (encoded ++ [expr fraction])
        | None => throw TypeError
        end
      else encode_loop fractions rest fractionIndex (encoded ++ ["0"])
  end.

(** The bit string of a text: every code unit in base 2, padded to 8. *)
Definition binary_of (text : list Z) : list ascii :=
  concat (map (fun char => padStart 8 "0" (toString2 char)) text).

Definition encode (text : list Z) (useAdvanced : bool) : M (list (list string)) :=
  s <- get ;;
  if negb (covenantAccepted s) then
    throw (Error "Must accept Memorial Covenant before encoding")
  else
    let fractions :=
      if useAdvanced then getStandardFractions ++ getAdvancedFractions
      else getStandardFractions in
    let binary := binary_of text in
    encoded <- encode_loop fractions binary 0 [] ;;
    logVerification "encode" text ;;;
    of_loop (formatAsGrid encoded 8).

(** *** verify *)

(** [verify(expression, expectedValue = 1)]; [None] is an omitted second
    argument. A third argument, if a caller passes one, is ignored. *)
Definition verify (expression : string) (expectedValue : option float) : M bool :=
  let expectedValue :=
    match expectedValue with Some v => v | None => 1%float end in
  s <- get ;;
  if negb (covenantAccepted s) then
    throw (Error "Must accept Memorial Covenant before verification")
  else
    try_catch
      (let standardFractions := getStandardFractions in
       match find (fun f => String.eqb (expr f) expression) standardFractions with
       | Some m =>
           let result := value m tt in
           logVerification "verify" expression ;;;
           ret (PrimFloat.ltb (PrimFloat.abs (result - expectedValue)) 0.0001)
       | None => ret false
       end)
      (fun _ => ret false).

(** *** decode *)

(** The loop [for (i = 0; i < binary.length; i += 8)]. *)
Equations? decode_loop (binary : list ascii) (i : nat) (chars : list Z)
    : list Z by wf (length binary - i) lt :=
  decode_loop binary i chars with lt_dec i (length binary) => {
    | right _ := chars;
    | left _ :=
        let byte := slice binary i (i + 8) in
        decode_loop binary (i + 8)
          (if Nat.eqb (length byte) 8
           then chars ++ [fromCharCode (parseInt2 byte)]
           else chars) }.
Proof. lia. Qed.

Definition decode_cell (cell : string) : M ascii :=
  if String.eqb cell "0" then ret "0"%char
  else
    ok <- verify cell None ;;
    ret (if ok then "1"%char else "0"%char).

Definition decode (encodedGrid : list (list string)) : M (list Z) :=
  s <- get ;;
  if negb (covenantAccepted s) then
    throw (Error "Must accept Memorial Covenant before decoding")
  else
    binary <- mapM decode_cell (concat encodedGrid) ;;
    let chars := decode_loop binary 0 [] in
    logVerification "decode" chars ;;;
    ret chars.

(** *** generateIdentitySet *)

(** The loop [for (i = 0; i < setSize; i++)], [n] iterations from [seed];
    [%] is the truncating remainder, exact on integer-valued numbers. *)
Fixpoint identity_loop (allFractions : list Fraction) (n : nat) (seed : Z)
    (personalSet : list (option Fraction)) : list (option Fraction) :=
  match n with
  | O => personalSet
  | S n' =>
      let seed := Z.rem (mul_add seed 9301 49297) 233280 in
      let idx := Z.rem seed (Z.of_nat (length allFractions)) in
      identity_loop allFractions n' seed
        (personalSet ++ [array_get allFractions (Z.to_nat idx)])
  end.

(** [generateIdentitySet(name, setSize = 16)]; an element is [None] where
    the array read gives [undefined]. *)
Definition generateIdentitySet (name : list Z) (setSize : option Z)
  : M (list (option Fraction)) :=
  let setSize := match setSize with Some n => n | None => 16%Z end in
  s <- get ;;
  if negb (covenantAccepted s) then
    throw (Error "Must accept Memorial Covenant before identity generation")
  else
    let allFractions := getStandardFractions ++ getAdvancedFractions in
    let seed := fold_left (fun acc char => (acc + char)%Z) name 0%Z in
    ret (identity_loop allFractions (Z.to_nat setSize) seed []).

End FC.

(** ** The covenant check of the class *)

Module Covenant.
Import FC.

Definition nl : string := String (ascii_of_nat 10) EmptyString.

(** The message of [enforceCovenantCheck], a template literal of ten lines. *)
Definition COVENANT_VIOLATION : string :=
  nl ++ "                COVENANT VIOLATION: Fractional Core requires humanitarian commitment."
  ++ nl ++ "                "
  ++ nl ++ "                To use this framework, you must:"
  ++ nl ++ "                1. Accept the Memorial Covenant"
  ++ nl ++ "                2. Commit to supporting cancer research"
  ++ nl ++ "                3. Honor Lev Goukassian's legacy"
  ++ nl ++ "                "
  ++ nl ++ "                Call acceptCovenant() with institutional commitment."
  ++ nl ++ "            ".

(** [enforceCovenantCheck()]. *)
Definition enforceCovenantCheck : M unit :=
  s <- get ;;
  if negb (covenantAccepted s) then throw (Error COVENANT_VIOLATION)
  else ret tt.

End Covenant.

(** ** A caller: the class DeFiAuthentication of the integration patterns

    The object has one field, [fc]; its state is the state of that instance. *)

Module DeFiAuthentication.
Import FC.

(** [acceptDeFiCovenant()]; the constructor does not await it. *)
Definition acceptDeFiCovenant : M unit :=
  let covenant :=
    VObj [ ("humanitarianCommitment", VBool true);
           ("cancerResearchSupport", VBool true);
           ("openScienceCommitment", VBool true);
           ("institutionName", VStr "DeFi Platform");
           ("contributionPlan",
            VStr "Transaction fee percentage to cancer research fund") ] in
  acceptCovenant (VStr "DeFi-Platform") covenant ;;; ret tt.

(** [new DeFiAuthentication()], on a console that already shows [out]. *)
Definition new (out : list LogLine) : State :=
  snd (acceptDeFiCovenant (FC.constructor out)).

(** [responses.every((response, index) => this.fc.verify(
    expectedExpressions[index].expr, 1))], from [index] on; reading [.expr]
    of [undefined] is a TypeError. *)
Fixpoint every_verified (expectedExpressions : list (option Fraction))
    (responses : list Val) (index : nat) : M bool :=
  match responses with
  | [] => ret true
  | response :: rest =>
      match array_get expectedExpressions index with
      | Some (Some fraction) =>
          ok <- verify (expr fraction) (Some 1%float) ;;
          if ok then every_verified expectedExpressions rest (index + 1)
          else ret false
      | _ => throw TypeError
      end
  end.

(** [verifyUserResponse(userAddress, responses)]. *)
Definition verifyUserResponse (userAddress : list Z) (responses : list Val) : M bool :=
  personalSet <- generateIdentitySet userAddress (Some 5%Z) ;;
  let expectedExpressions := slice personalSet 0 3 in
  every_verified expectedExpressions responses 0.

End DeFiAuthentication.

(** ** A caller: the class FCEducationalAssessment of the examples

    What the class takes from its environment is a parameter: the random
    permutation of [shuffleArray], the text of a number in a template
    literal, the rounding of a percentage, and the clock. *)

Module Education.
Import FC.

Record Question := {
  id : Z;
  question : string;
  options : list string;
  correctAnswer : string;
  explanation : string
}.

Record Assessment := {
  assessment_id : string;
  questions : list Question;
  difficulty : string;
  created : Z
}.

(** An entry of [results]; [studentAnswer] is [undefined] past the end of
    the responses. *)
Record Result := {
  questionId : Z;
  studentAnswer : Val;
  result_correctAnswer : string;
  isCorrect : bool;
  verified : bool;
  result_explanation : string
}.

Record StudentResult := {
  studentId : string;
  assessmentId : string;
  score : Z;
  totalQuestions : nat;
  percentage : Z;
  results : list Result;
  completed : Z
}.

(** The fields of the object: the instance [fc] and two Maps keyed by
    strings. *)
Record Object := {
  fc : State;
  students : list (string * list StudentResult);
  assessments : list (string * Assessment)
}.

(** [Map.get] and [Map.set]. *)
Fixpoint map_get {V} (k : string) (m : list (string * V)) : option V :=
  match m with
  | [] => None
  | (k', v) :: rest => if String.eqb k' k then Some v else map_get k rest
  end.

Fixpoint map_set {V} (k : string) (v : V) (m : list (string * V)) : list (string * V) :=
  match m with
  | [] => [(k, v)]
  | (k', v') :: rest =>
      if String.eqb k' k then (k, v) :: rest else (k', v') :: map_set k v rest
  end.

(** [a === b] for a string [b]. *)
Definition strict_eq_string (a : Val) (b : string) : bool :=
  match a with
  | VStr s => String.eqb s b
  | _ => false
  end.

Definition generateIncorrectOptions : list string := ["2+2"; "3×2"; "√9"].

Section Environment.

(** [shuffleArray], driven by [Math.random]. *)
Variable shuffleArray : list string -> list string.
(** The template literal [`${correct.expr} = ${correct.value()}`]. *)
Variable explain : Fraction -> string.
(** [Math.round((score / n) * 100)]. *)
Variable percent : Z -> nat -> Z.

(** The loop [for (let i = 0; i < 10; i++)] of [createAssessment], with
    [n] iterations left. *)
Fixpoint createAssessment_loop (expressions : list Fraction) (n i : nat)
    (qs : list Question) : Exn + list Question :=
  match n with
  | O => inr qs
  | S n' =>
      match array_get expressions (i mod length expressions) with
      | Some correct =>
          let incorrect := generateIncorrectOptions in
          createAssessment_loop expressions n' (i + 1)
            (qs ++ [ {| id := Z.of_nat i + 1;
                        question := "Which expression equals 1?";
                        options := shuffleArray (expr correct :: incorrect);
                        correctAnswer := expr correct;
                        explanation := explain correct |} ])
      | None => inl TypeError
      end
  end.

(** [createAssessment(assessmentId, difficulty = 'basic')], at time [now]. *)
Definition createAssessment (assessmentId : string) (difficulty : option string)
    (now : Z) (this : Object) : Outcome string * Object :=
  let difficulty := match difficulty with Some d => d | None => "basic" end in
  let expressions :=
    if String.eqb difficulty "advanced" then getAdvancedFractions
    else getStandardFractions in
  match createAssessment_loop expressions 10 0 [] with
  | inl e => (Throw e, this)
  | inr qs =>
      (Return assessmentId,
       {| fc := fc this;
          students := students this;
          assessments :=
            map_set assessmentId
              {| assessment_id := assessmentId;
                 questions := qs;
                 difficulty := difficulty;
                 created := now |}
              (assessments this) |})
  end.

(** The callback of [assessment.questions.forEach] in [submitResponse],
    over the questions from [index] on. *)
Fixpoint submitResponse_forEach (qs : list Question) (responses : list Val)
    (index : nat) (score : Z) (results : list Result) : M (Z * list Result) :=
  match qs with
  | [] => ret (score, results)
  | q :: rest =>
      let studentAnswer :=
        match array_get responses index with Some v => v | None => VUndefined end in
      let isCorrect := strict_eq_string studentAnswer (correctAnswer q) in
      verified <- verify (correctAnswer q) (Some 1%float) ;;
      let score := if isCorrect && verified then (score + 1)%Z else score in
      submitResponse_forEach rest responses (index + 1) score
        (results ++ [ {| questionId := id q;
                         studentAnswer := studentAnswer;
                         result_correctAnswer := correctAnswer q;
                         isCorrect := isCorrect;
                         verified := verified;
                         result_explanation := explanation q |} ])
  end.

(** [submitResponse(studentId, assessmentId, responses)], at time [now]. *)
Definition submitResponse (studentId assessmentId : string) (responses : list Val)
    (now : Z) (this : Object) : Outcome StudentResult * Object :=
  match map_get assessmentId (assessments this) with
  | None => (Throw (Error "Assessment not found"), this)
  | Some assessment =>
      match submitResponse_forEach (questions assessment) responses 0 0%Z [] (fc this) with
      | (Return (score, results), fc') =>
          let studentResult :=
            {| studentId := studentId;
               assessmentId := assessmentId;
               score := score;
               totalQuestions := length (questions assessment);
               percentage := percent score (length (questions assessment));
               results := results;
               completed := now |} in
          let stored :=
            match map_get studentId (students this) with
            | Some earlier => earlier
            | None => []
            end in
          (Return studentResult,
           {| fc := fc';
              students := map_set studentId (stored ++ [studentResult]) (students this);
              assessments := assessments this |})
      | (Throw e, fc') =>
          (Throw e, {| fc := fc'; students := students this;
                       assessments := assessments this |})
      | (Diverge, fc') =>
          (Diverge, {| fc := fc'; students := students this;
                       assessments := assessments this |})
      end
  end.

End Environment.

End Education.

(** * Views of the code used to state and prove its properties

    Pure functions that the lemmas below show equal to what the methods
    compute ([chars_of], [cells_of], [cell_bit], [logged], ...), predicates on
    grids and states, the generator of the identity set in closed form, and
    sequences of calls. *)

Module Views.
Import FC.

Definition is_bit (b : ascii) : Prop := b = "0"%char \/ b = "1"%char.

Definition is_bitb (b : ascii) : bool := Ascii.eqb b "0" || Ascii.eqb b "1".

(** The eight characters [encode] writes for one code unit. *)
Definition byte_of (char : Z) : list ascii := padStart 8 "0" (toString2 char).

(** The characters [decode_loop] reads back from a bit string: one per full
    group of eight, the rest dropped. *)
Fixpoint chars_of (binary : list ascii) : list Z :=
  match binary with
  | b0 :: b1 :: b2 :: b3 :: b4 :: b5 :: b6 :: b7 :: rest =>
      fromCharCode (parseInt2 [b0; b1; b2; b3; b4; b5; b6; b7]) :: chars_of rest
  | _ => []
  end.

Definition byte_ok (n : nat) : bool :=
  let byte := byte_of (Z.of_nat n) in
  Nat.eqb (length byte) 8
  && forallb is_bitb byte
  && match parseInt2 byte with
     | Some k => Z.eqb k (Z.of_nat n)
     | None => false
     end.

(** [Rows w cells rows]: [rows] cuts [cells] into rows of [w] cells from the
    left, each row being all of the next [w] cells, or all that remain. *)
Inductive Rows (w : nat) : list string -> list (list string) -> Prop :=
| Rows_done : Rows w [] []
| Rows_row (cells : list string) (rows : list (list string)) :
    cells <> [] ->
    Rows w (skipn w cells) rows ->
    Rows w cells (firstn w cells :: rows).

(** The state left by one call of [logVerification]. *)
Definition logged (op : string) (s : State) : State :=
  {| covenantAccepted := covenantAccepted s;
     institutionId := institutionId s;
     verificationCount := (verificationCount s + 1)%Z;
     console :=
       console s ++
       [ LogVerificationNo (verificationCount s + 1)%Z;
         LogInstitution (institutionId s);
         LogOperation op;
         LogTimestamp;
         LogContributing;
         LogLegacy FC_ORIGIN ] |}.

(** An instance that has accepted the covenant under an institution that
    has a text form: the instances on which [logVerification] does not
    throw. *)
Definition ready (s : State) : Prop :=
  covenantAccepted s = true /\ printable (institutionId s) = true.

(** The state left by a call of [logVerification] that throws at the line
    of the institution: the count is incremented and one line is written. *)
Definition stalled (s : State) : State :=
  {| covenantAccepted := covenantAccepted s;
     institutionId := institutionId s;
     verificationCount := (verificationCount s + 1)%Z;
     console := console s ++ [LogVerificationNo (verificationCount s + 1)%Z] |}.

(** The texts of the standard table, and membership in it. *)
Definition standard_texts : list string := map expr getStandardFractions.

Definition catalogued (expression : string) : bool :=
  existsb (String.eqb expression) standard_texts.

(** The comparison at the end of [verify], for a result equal to 1. *)
Definition near_one (expectedValue : float) : bool :=
  PrimFloat.ltb (PrimFloat.abs (1 - expectedValue)) 0.0001.

(** The cells [encode_loop] appends, given the texts of its pool. *)
Fixpoint cells_of (pool : list string) (binary : list ascii) (fractionIndex : nat)
  : list string :=
  match binary with
  | [] => []
  | bit :: rest =>
      if Ascii.eqb bit "1" then
        nth (fractionIndex mod length pool) pool "" :: cells_of pool rest (fractionIndex + 1)
      else "0" :: cells_of pool rest fractionIndex
  end.

(** The bit [decode] reads from a cell, and the state it leaves. *)
Definition cell_bit (cell : string) : ascii :=
  if String.eqb cell "0" then "0"%char
  else if catalogued cell then "1"%char else "0"%char.

Definition cell_state (s : State) (cell : string) : State :=
  if String.eqb cell "0" then s
  else if catalogued cell then logged "verify" s else s.

Definition pool_of (useAdvanced : bool) : list Fraction :=
  if useAdvanced then getStandardFractions ++ getAdvancedFractions
  else getStandardFractions.

(** The instance of [examples/demo.js] after its call of [acceptCovenant]. *)
Definition demo : State :=
  snd (acceptCovenant (VStr "Demo-Institution-2025")
         (VObj [ ("humanitarianCommitment", VBool true);
                 ("cancerResearchSupport", VBool true);
                 ("openScienceCommitment", VBool true);
                 ("institutionName", VStr "Demo Institution");
                 ("contributionPlan", VStr "Support student cancer researchers") ])
         (constructor [])).

(** The value returned by [encode], whatever the fields of the instance. *)
Definition encoded_grid (text : list Z) (useAdvanced : bool) : Outcome (list (list string)) :=
  match formatAsGrid (cells_of (map expr (pool_of useAdvanced)) (binary_of text) 0) 8 with
  | Some rows => Return rows
  | None => Diverge
  end.

(** The positions of a row that hold something else than the literal zero. *)
Definition nonzero_positions (row : list string) : list nat :=
  filter (fun k => negb (String.eqb (nth k row "0") "0")) (seq 0 (length row)).

(** The bit a reader sees in a cell: 0 for the literal zero, 1 otherwise. *)
Definition shown_bit (cell : string) : ascii :=
  if String.eqb cell "0" then "0"%char else "1"%char.

(** ["F"] is code 70 and ["C"] is code 67. *)
Definition FC_grid : list (list string) :=
  [ ["0"; "√1"; "0"; "0"; "0"; "0!"; "|−1|"; "0"];
    ["0"; "7^0"; "0"; "0"; "0"; "0"; "(2+2)/4"; "1/1"] ].

(** The generator as the specification words it: a linear congruential
    generator seeded with the sum of the character codes of the name, each
    draw selecting the entry of the joint table at the draw modulo its size. *)
Definition lcg_next (x : Z) : Z := ((x * 9301 + 49297) mod 233280)%Z.

Fixpoint lcg (seed : Z) (k : nat) : Z :=
  match k with
  | O => seed
  | S k' => lcg (lcg_next seed) k'
  end.

Definition code_sum (name : list Z) : Z := fold_right Z.add 0%Z name.

Definition lcg_selection (name : list Z) (size : nat) : list (option Fraction) :=
  let table := getStandardFractions ++ getAdvancedFractions in
  map (fun k =>
         array_get table
           (Z.to_nat (lcg (code_sum name) (S k) mod Z.of_nat (length table))))
      (seq 0 size).

(** A call of one of the four operations, and the message of its gate. *)
Inductive Call :=
| CallEncode (text : list Z) (useAdvanced : bool)
| CallVerify (expression : string) (expectedValue : option float)
| CallDecode (encodedGrid : list (list string))
| CallGenerateIdentitySet (name : list Z) (setSize : option Z).

Definition perform (c : Call) : M unit :=
  match c with
  | CallEncode text useAdvanced => encode text useAdvanced ;;; ret tt
  | CallVerify expression expectedValue => verify expression expectedValue ;;; ret tt
  | CallDecode encodedGrid => decode encodedGrid ;;; ret tt
  | CallGenerateIdentitySet name setSize => generateIdentitySet name setSize ;;; ret tt
  end.

Definition gate_message (c : Call) : string :=
  match c with
  | CallEncode _ _ => "Must accept Memorial Covenant before encoding"
  | CallVerify _ _ => "Must accept Memorial Covenant before verification"
  | CallDecode _ => "Must accept Memorial Covenant before decoding"
  | CallGenerateIdentitySet _ _ =>
      "Must accept Memorial Covenant before identity generation"
  end.

(** The calls of a list one after the other, an exception being caught by
    the caller before the next call. *)
Fixpoint perform_all (calls : list Call) (s : State) : list (Outcome unit) * State :=
  match calls with
  | [] => ([], s)
  | c :: rest =>
      let (r, s') := perform c s in
      let (rs, s'') := perform_all rest s' in
      (r :: rs, s'')
  end.

(** The test of [acceptCovenant] on its second argument. *)
Definition commits (covenantAgreement : Val) : bool :=
  match get_prop covenantAgreement "humanitarianCommitment" with
  | inr commitment => truthy commitment
  | inl _ => false
  end.

(** [only_logs n s s']: from [s] to [s'] the covenant flag and the
    institution are kept, [verificationCount] grows by [n], and the console
    gets [6 * n] more lines, the six lines of each call of
    [logVerification]. *)
Definition only_logs (n : Z) (s s' : State) : Prop :=
  covenantAccepted s' = covenantAccepted s
  /\ institutionId s' = institutionId s
  /\ verificationCount s' = (verificationCount s + n)%Z
  /\ exists lines,
       console s' = console s ++ lines /\ Z.of_nat (length lines) = (6 * n)%Z.

End Views.

(** * Further views: counts, sequences of actions *)

Module Measures.
Import FC Views Covenant.

(** The number of bits 1 of a bit string, and of the bit string of a text. *)
Definition ones (binary : list ascii) : nat :=
  length (filter (fun bit => Ascii.eqb bit "1") binary).

Definition ones_of (text : list Z) : nat := ones (binary_of text).

(** The cells of a list that are not the literal zero, in order. *)
Definition expression_cells (cells : list string) : list string :=
  filter (fun cell => negb (String.eqb cell "0")) cells.

(** Anything a user can do to an instance: one of the four operations,
    [acceptCovenant], [enforceCovenantCheck], or [logVerification] itself. *)
Inductive Action :=
| DoCall (c : Call)
| DoAccept (id covenantAgreement : Val)
| DoEnforce
| DoLog (op : string).

Definition act (a : Action) : M unit :=
  match a with
  | DoCall c => perform c
  | DoAccept id covenantAgreement => acceptCovenant id covenantAgreement ;;; ret tt
  | DoEnforce => enforceCovenantCheck
  | DoLog op => logVerification op tt ;;; ret tt
  end.




(** The joint table read by [generateIdentitySet]. *)
Definition joint_table : list Fraction :=
  getStandardFractions ++ getAdvancedFractions.

(** [responses[index]]. *)
Definition response_at (responses : list Val) (index : nat) : Val :=
  match array_get responses index with
  | Some v => v
  | None => VUndefined
  end.

(** How many of the answers, from [index] on, the responses give exactly. *)
Fixpoint right_answers (answers : list string) (responses : list Val)
    (index : nat) : nat :=
  match answers with
  | [] => 0
  | answer :: rest =>
      (if Education.strict_eq_string (response_at responses index) answer
       then 1 else 0)
      + right_answers rest responses (index + 1)
  end.

End Measures.

(** * Properties *)

(** ** Bytes and bit strings *)

Module Bits.
Import FC Views.

Lemma is_bitb_spec b : is_bitb b = true <-> is_bit b.
Proof.
  unfold is_bitb, is_bit. rewrite orb_true_iff, !Ascii.eqb_eq. tauto.
Qed.

Lemma all_bytes_ok : forallb byte_ok (seq 0 256) = true.
Proof. vm_compute. reflexivity. Qed.

Lemma byte_of_spec (c : Z) :
  (0 <= c < 256)%Z ->
  length (byte_of c) = 8 /\ Forall is_bit (byte_of c) /\ parseInt2 (byte_of c) = Some c.
Proof.
  intros Hc.
  assert (Hin : In (Z.to_nat c) (seq 0 256)) by (apply in_seq; lia).
  pose proof (proj1 (forallb_forall _ _) all_bytes_ok _ Hin) as Hok.
  unfold byte_ok in Hok. rewrite Z2Nat.id in Hok by lia.
  apply andb_true_iff in Hok as [Hok Hparse].
  apply andb_true_iff in Hok as [Hlen Hbits].
  split; [now apply Nat.eqb_eq |].
  split.
  - apply Forall_forall. intros b Hb. apply is_bitb_spec.
    exact (proj1 (forallb_forall _ _) Hbits b Hb).
  - destruct (parseInt2 (byte_of c)) as [k |]; [| discriminate].
    apply Z.eqb_eq in Hparse. now subst.
Qed.

Lemma chars_of_byte (c : Z) (rest : list ascii) :
  (0 <= c < 256)%Z -> chars_of (byte_of c ++ rest) = c :: chars_of rest.
Proof.
  intros Hc. destruct (byte_of_spec c Hc) as (Hlen & _ & Hparse).
  destruct (byte_of c) as [| b0 [| b1 [| b2 [| b3 [| b4 [| b5 [| b6 [| b7 [| b8 l]]]]]]]]];
    try discriminate Hlen.
  cbn [app chars_of]. rewrite Hparse. cbn [fromCharCode].
  rewrite Z.mod_small by lia. reflexivity.
Qed.

(** Decoding the bit string of a text of 8-bit code units gives it back. *)
Lemma chars_of_binary_of (text : list Z) :
  Forall (fun c => 0 <= c < 256)%Z text -> chars_of (binary_of text) = text.
Proof.
  unfold binary_of. induction 1 as [| c text Hc _ IH]; [reflexivity |].
  cbn [map concat]. fold (byte_of c). rewrite chars_of_byte by assumption.
  now rewrite IH.
Qed.

(** Conversely, a group of eight bits is the byte of the character read
    from it. *)
Lemma byte_of_parse (b0 b1 b2 b3 b4 b5 b6 b7 : ascii) :
  is_bit b0 -> is_bit b1 -> is_bit b2 -> is_bit b3 ->
  is_bit b4 -> is_bit b5 -> is_bit b6 -> is_bit b7 ->
  byte_of (fromCharCode (parseInt2 [b0; b1; b2; b3; b4; b5; b6; b7]))
  = [b0; b1; b2; b3; b4; b5; b6; b7].
Proof.
  intros [-> | ->] [-> | ->] [-> | ->] [-> | ->]
         [-> | ->] [-> | ->] [-> | ->] [-> | ->]; vm_compute; reflexivity.
Qed.

Lemma binary_of_chars_of (n : nat) (binary : list ascii) :
  Forall is_bit binary -> length binary = 8 * n ->
  binary_of (chars_of binary) = binary.
Proof.
  revert binary. induction n as [| n IH]; intros binary Hbits Hlen.
  - destruct binary; [reflexivity | discriminate].
  - destruct binary as [| b0 [| b1 [| b2 [| b3 [| b4 [| b5 [| b6 [| b7 rest]]]]]]]];
      cbn [length] in Hlen; try lia.
    repeat match goal with
           | H : Forall is_bit (_ :: _) |- _ => inversion H; subst; clear H
           end.
    cbn [chars_of]. unfold binary_of. cbn [map concat].
    fold (byte_of (fromCharCode (parseInt2 [b0; b1; b2; b3; b4; b5; b6; b7]))).
    rewrite byte_of_parse by assumption.
    change (concat (map (fun char => padStart 8 "0" (toString2 char)) (chars_of rest)))
      with (binary_of (chars_of rest)).
    rewrite IH by (assumption || lia). reflexivity.
Qed.

Lemma length_binary_of (text : list Z) :
  Forall (fun c => 0 <= c < 256)%Z text -> length (binary_of text) = 8 * length text.
Proof.
  unfold binary_of. induction 1 as [| c text Hc _ IH]; [reflexivity |].
  cbn [map concat length]. fold (byte_of c). rewrite length_app, IH.
  destruct (byte_of_spec c Hc) as (-> & _). lia.
Qed.

Lemma bits_binary_of (text : list Z) :
  Forall (fun c => 0 <= c < 256)%Z text -> Forall is_bit (binary_of text).
Proof.
  unfold binary_of. induction 1 as [| c text Hc _ IH]; [constructor |].
  cbn [map concat]. fold (byte_of c). apply Forall_app. split; [| exact IH].
  now destruct (byte_of_spec c Hc) as (_ & ? & _).
Qed.

Lemma chars_of_short (binary : list ascii) :
  length binary < 8 -> chars_of binary = [].
Proof.
  intros H.
  destruct binary as [| b0 [| b1 [| b2 [| b3 [| b4 [| b5 [| b6 [| b7 rest]]]]]]]];
    try reflexivity.
  cbn [length] in H. lia.
Qed.

Lemma chars_of_step (binary : list ascii) :
  8 <= length binary ->
  chars_of binary
  = fromCharCode (parseInt2 (firstn 8 binary)) :: chars_of (skipn 8 binary).
Proof.
  intros H.
  destruct binary as [| b0 [| b1 [| b2 [| b3 [| b4 [| b5 [| b6 [| b7 rest]]]]]]]];
    cbn [length] in H; try lia.
  reflexivity.
Qed.

(** The loop of [decode], from any index. *)
Lemma decode_loop_from (binary : list ascii) (i : nat) (chars : list Z) :
  decode_loop binary i chars = chars ++ chars_of (skipn i binary).
Proof.
  remember (length binary - i) as m eqn:Hm.
  revert i chars Hm. induction m as [m IH] using lt_wf_ind. intros i chars Hm.
  rewrite decode_loop_equation_1. unfold decode_loop_unfold_clause_1.
  destruct (lt_dec i (length binary)) as [Hlt | Hge].
  - cbn zeta. unfold slice. replace (i + 8 - i) with 8 by lia.
    rewrite (IH (length binary - (i + 8))) by lia.
    rewrite length_firstn, length_skipn.
    replace (skipn (i + 8) binary) with (skipn 8 (skipn i binary))
      by (rewrite skipn_skipn; f_equal; lia).
    destruct (Nat.eqb_spec (Nat.min 8 (length binary - i)) 8) as [Heq | Hne].
    + rewrite (chars_of_step (skipn i binary)) by (rewrite length_skipn; lia).
      now rewrite <- app_assoc.
    + rewrite (chars_of_short (skipn i binary)) by (rewrite length_skipn; lia).
      rewrite chars_of_short; [reflexivity |].
      rewrite !length_skipn. lia.
  - rewrite skipn_all2 by lia. cbn. now rewrite app_nil_r.
Qed.

Lemma decode_loop_chars_of (binary : list ascii) :
  decode_loop binary 0 [] = chars_of binary.
Proof. now rewrite decode_loop_from. Qed.

Lemma length_chars_of (binary : list ascii) :
  length (chars_of binary) = length binary / 8.
Proof.
  remember (length binary) as m eqn:Hm.
  revert binary Hm. induction m as [m IH] using lt_wf_ind. intros binary Hm.
  destruct (le_lt_dec 8 m) as [Hge | Hlt].
  - rewrite chars_of_step by lia. cbn [length].
    rewrite (IH (m - 8)) by (rewrite ?length_skipn; lia).
    replace m with ((m - 8) + 1 * 8) at 2 by lia.
    rewrite Nat.div_add by lia. lia.
  - rewrite chars_of_short by lia. now rewrite Nat.div_small.
Qed.

(** Trailing cells beyond the last full group of eight do not count. *)
Lemma chars_of_firstn (binary : list ascii) :
  chars_of (firstn (8 * (length binary / 8)) binary) = chars_of binary.
Proof.
  remember (length binary) as m eqn:Hm.
  revert binary Hm. induction m as [m IH] using lt_wf_ind. intros binary Hm.
  destruct (le_lt_dec 8 m) as [Hge | Hlt].
  - destruct binary as [| b0 [| b1 [| b2 [| b3 [| b4 [| b5 [| b6 [| b7 rest]]]]]]]];
      cbn [length] in Hm; try lia.
    replace m with (length rest + 1 * 8) by lia.
    rewrite Nat.div_add by lia.
    replace (8 * (length rest / 8 + 1)) with (8 + 8 * (length rest / 8)) by lia.
    cbn [Nat.add firstn chars_of]. f_equal.
    apply (IH (length rest)); [lia | reflexivity].
  - rewrite Nat.div_small by lia. cbn. now rewrite chars_of_short by lia.
Qed.

End Bits.

(** ** Rows of a grid *)

Module Grid.
Import FC Views.

Lemma Rows_concat (w : nat) (cells : list string) (rows : list (list string)) :
  Rows w cells rows -> concat rows = cells.
Proof.
  induction 1 as [| cells rows _ _ IH]; [reflexivity |].
  cbn [concat]. rewrite IH. apply firstn_skipn.
Qed.

Lemma Rows_width (w : nat) (cells : list string) (rows : list (list string)) :
  Rows w cells rows -> 0 < w ->
  Forall (fun row => 1 <= length row <= w) rows.
Proof.
  induction 1 as [| cells rows Hne _ IH]; intros Hw; constructor; auto.
  rewrite length_firstn. destruct cells; [congruence | cbn [length]; lia].
Qed.

(** Every row that is followed by another one is full. *)
Lemma Rows_full (w : nat) (cells : list string) (rows : list (list string)) :
  Rows w cells rows ->
  forall k row, nth_error rows k = Some row -> S k < length rows -> length row = w.
Proof.
  induction 1 as [| cells rows Hne Hrest IH]; intros k row Hk Hlast.
  - destruct k; discriminate.
  - destruct k as [| k]; cbn [nth_error length] in *.
    + injection Hk as <-. rewrite length_firstn.
      destruct (le_lt_dec w (length cells)) as [Hle | Hlt]; [lia |].
      rewrite skipn_all2 in Hrest by lia.
      inversion Hrest as [Hrows |]; subst; [cbn [length] in Hlast; lia | congruence].
    + apply (IH k); [assumption | lia].
Qed.

(** When the cells fill whole rows, there are [n] rows, all full. *)
Lemma Rows_exact (w : nat) (cells : list string) (rows : list (list string)) :
  Rows w cells rows -> 0 < w ->
  forall n, length cells = w * n ->
  length rows = n /\ Forall (fun row => length row = w) rows.
Proof.
  induction 1 as [| cells rows Hne _ IH]; intros Hw n Hn.
  - cbn [length] in Hn. split; [| constructor].
    destruct n; [reflexivity | nia].
  - destruct n as [| n].
    + destruct cells; [congruence | cbn [length] in Hn; lia].
    + destruct (IH Hw n) as [Hlen Hall].
      { rewrite length_skipn. nia. }
      split; [cbn [length]; lia |].
      constructor; [| exact Hall]. rewrite length_firstn. nia.
Qed.

Lemma formatAsGrid_loop_rows (encoded : list string) (w i : nat)
    (grid : list (list string)) :
  exists rows,
    formatAsGrid_loop encoded (S w) i grid = Some (grid ++ rows)
    /\ Rows (S w) (skipn i encoded) rows.
Proof.
  remember (length encoded - i) as m eqn:Hm.
  revert i grid Hm. induction m as [m IH] using lt_wf_ind. intros i grid Hm.
  rewrite formatAsGrid_loop_equation_1. unfold formatAsGrid_loop_unfold_clause_1.
  destruct (lt_dec i (length encoded)) as [Hlt | Hge].
  - rewrite formatAsGrid_loop_clause_1_clause_2_equation_2.
    destruct (IH (length encoded - (i + S w)) ltac:(lia) (i + S w)
                (grid ++ [slice encoded i (i + S w)]) eq_refl)
      as (rows & Hrun & Hrows).
    exists (slice encoded i (i + S w) :: rows). split.
    + rewrite Hrun, <- app_assoc. reflexivity.
    + unfold slice. replace (i + S w - i) with (S w) by lia.
      apply Rows_row.
      * intros Hnil. apply (f_equal (@length string)) in Hnil.
        rewrite length_skipn in Hnil. cbn [length] in Hnil. lia.
      * rewrite skipn_skipn. replace (S w + i) with (i + S w) by lia. exact Hrows.
  - exists []. split; [now rewrite app_nil_r |].
    rewrite skipn_all2 by lia. constructor.
Qed.

(** [formatAsGrid] with a positive width always returns, and its rows are
    the cells and nothing else. *)
Lemma formatAsGrid_rows (encoded : list string) (w : nat) :
  exists rows, formatAsGrid encoded (S w) = Some rows /\ Rows (S w) encoded rows.
Proof.
  destruct (formatAsGrid_loop_rows encoded w 0 []) as (rows & Hrun & Hrows).
  exists rows. split; assumption.
Qed.

End Grid.

(** ** The methods on an instance that has accepted the covenant *)

Module Run.
Import FC Views Bits Grid.

Lemma logVerification_run {D : Type} (op : string) (data : D) (s : State) :
  printable (institutionId s) = true ->
  logVerification op data s
  = (Return {| verificationId := (verificationCount s + 1)%Z;
               institution := institutionId s;
               operation := op;
               covenantTriggered := true |},
     logged op s).
Proof.
  intros Hprint.
  unfold logVerification, bind, get, put, console_log, template, bind, get, put, ret.
  cbn [covenantAccepted institutionId verificationCount console].
  rewrite Hprint. cbn [covenantAccepted institutionId verificationCount console].
  unfold logged. now rewrite <- app_assoc.
Qed.

(** On an institution without a text form [logVerification] throws, after
    the increment and the first line. *)
Lemma logVerification_stalls {D : Type} (op : string) (data : D) (s : State) :
  printable (institutionId s) = false ->
  logVerification op data s = (Throw TypeError, stalled s).
Proof.
  intros Hprint.
  unfold logVerification, bind, get, put, console_log, template, bind, get, put, throw.
  cbn [covenantAccepted institutionId verificationCount console].
  now rewrite Hprint.
Qed.

Lemma logged_accepted (op : string) (s : State) :
  covenantAccepted (logged op s) = covenantAccepted s.
Proof. reflexivity. Qed.

Lemma logged_ready (op : string) (s : State) : ready s -> ready (logged op s).
Proof. intros Hready. exact Hready. Qed.

Lemma cell_state_ready (s : State) (cell : string) :
  ready s -> ready (cell_state s cell).
Proof.
  intros Hready. unfold cell_state.
  destruct (String.eqb cell "0"), (catalogued cell); exact Hready.
Qed.

Lemma cells_state_ready (cells : list string) (s : State) :
  ready s -> ready (fold_left cell_state cells s).
Proof.
  revert s. induction cells as [| c cells IH]; intros s Hready; [exact Hready |].
  cbn [fold_left]. now apply IH, cell_state_ready.
Qed.

Lemma cell_state_accepted (s : State) (cell : string) :
  covenantAccepted (cell_state s cell) = covenantAccepted s.
Proof.
  unfold cell_state. destruct (String.eqb cell "0"), (catalogued cell); reflexivity.
Qed.

Lemma cells_state_accepted (cells : list string) (s : State) :
  covenantAccepted (fold_left cell_state cells s) = covenantAccepted s.
Proof.
  revert s. induction cells as [| c cells IH]; intros s; [reflexivity |].
  cbn [fold_left]. now rewrite IH, cell_state_accepted.
Qed.

(** *** encode *)

Lemma encode_loop_run (fractions : list Fraction) (binary : list ascii)
    (fractionIndex : nat) (encoded : list string) (s : State) :
  fractions <> [] ->
  encode_loop fractions binary fractionIndex encoded s
  = (Return (encoded ++ cells_of (map expr fractions) binary fractionIndex), s).
Proof.
  intros Hne. revert fractionIndex encoded.
  induction binary as [| bit rest IH]; intros fractionIndex encoded.
  - cbn. now rewrite app_nil_r.
  - cbn [encode_loop cells_of]. destruct (Ascii.eqb bit "1").
    + assert (Hlt : fractionIndex mod length fractions < length fractions).
      { apply Nat.mod_upper_bound. destruct fractions; [congruence | discriminate]. }
      unfold array_get.
      destruct (nth_error fractions (fractionIndex mod length fractions))
        as [fraction |] eqn:Hnth.
      * rewrite IH, <- app_assoc. cbn [app]. rewrite length_map.
        erewrite (nth_error_nth (map expr fractions)); [reflexivity |].
        rewrite nth_error_map, Hnth. reflexivity.
      * apply nth_error_None in Hnth. lia.
    + rewrite IH, <- app_assoc. reflexivity.
Qed.

Lemma length_cells_of (pool : list string) (binary : list ascii) (fractionIndex : nat) :
  length (cells_of pool binary fractionIndex) = length binary.
Proof.
  revert fractionIndex. induction binary as [| bit rest IH]; intros fractionIndex;
    [reflexivity |].
  cbn [cells_of]. destruct (Ascii.eqb bit "1"); cbn [length]; now rewrite IH.
Qed.

(** Every cell is the literal zero or a text of the pool. *)
Lemma cells_of_pool (pool : list string) (binary : list ascii) (fractionIndex : nat) :
  pool <> [] ->
  Forall (fun cell => cell = "0" \/ In cell pool) (cells_of pool binary fractionIndex).
Proof.
  intros Hne. revert fractionIndex.
  induction binary as [| bit rest IH]; intros fractionIndex; [constructor |].
  cbn [cells_of]. destruct (Ascii.eqb bit "1"); constructor; auto.
  right. apply nth_In. apply Nat.mod_upper_bound.
  destruct pool; [congruence | discriminate].
Qed.

Lemma pool_of_nonempty (useAdvanced : bool) : pool_of useAdvanced <> [].
Proof. destruct useAdvanced; discriminate. Qed.

Lemma encode_run (text : list Z) (useAdvanced : bool) (s : State) :
  ready s ->
  exists rows,
    encode text useAdvanced s = (Return rows, logged "encode" s)
    /\ Rows 8 (cells_of (map expr (pool_of useAdvanced)) (binary_of text) 0) rows.
Proof.
  intros [Hacc Hprint].
  destruct (formatAsGrid_rows
              (cells_of (map expr (pool_of useAdvanced)) (binary_of text) 0) 7)
    as (rows & Hrun & Hrows).
  exists rows. split; [| exact Hrows].
  unfold encode, bind, get. rewrite Hacc. cbn [negb].
  fold (pool_of useAdvanced).
  rewrite encode_loop_run by apply pool_of_nonempty.
  cbn [app]. rewrite logVerification_run by assumption.
  unfold of_loop. now rewrite Hrun.
Qed.

(** *** verify *)

Lemma standard_values :
  Forall (fun f => value f tt = 1%float) getStandardFractions.
Proof. repeat constructor. Qed.

Lemma find_catalogued (expression : string) :
  match find (fun f => String.eqb (expr f) expression) getStandardFractions with
  | Some m => catalogued expression = true /\ value m tt = 1%float
  | None => catalogued expression = false
  end.
Proof.
  destruct (find _ _) as [m |] eqn:Hfind.
  - apply find_some in Hfind as [Hin Heq]. apply String.eqb_eq in Heq. split.
    + apply existsb_exists. exists (expr m). split.
      * apply in_map. exact Hin.
      * apply String.eqb_eq. now symmetry.
    + exact (proj1 (Forall_forall _ _) standard_values m Hin).
  - destruct (catalogued expression) eqn:Hcat; [| reflexivity].
    apply existsb_exists in Hcat as (e & Hin & Heq). apply String.eqb_eq in Heq.
    apply in_map_iff in Hin as (f & Hf & Hin).
    pose proof (find_none _ _ Hfind f Hin) as Hno. cbn beta in Hno.
    rewrite Hf, <- Heq, String.eqb_refl in Hno. discriminate.
Qed.

Lemma catalogued_spec (expression : string) :
  catalogued expression = true <-> In expression standard_texts.
Proof.
  unfold catalogued. rewrite existsb_exists. split.
  - intros (e & Hin & Heq). apply String.eqb_eq in Heq. now subst.
  - intros Hin. exists expression. split; [assumption | apply String.eqb_refl].
Qed.

Lemma verify_run (expression : string) (expectedValue : option float) (s : State) :
  ready s ->
  verify expression expectedValue s
  = if catalogued expression
    then (Return (near_one match expectedValue with Some v => v | None => 1%float end),
          logged "verify" s)
    else (Return false, s).
Proof.
  intros [Hacc Hprint]. unfold verify, bind, get. rewrite Hacc. cbn [negb].
  unfold try_catch. pose proof (find_catalogued expression) as Hfind.
  destruct (find _ _) as [m |].
  - destruct Hfind as [-> Hone]. rewrite logVerification_run by assumption.
    unfold ret. rewrite Hone. reflexivity.
  - rewrite Hfind. reflexivity.
Qed.

(** An expression outside the standard table is rejected without a log,
    whatever the institution. *)
Lemma verify_uncatalogued (expression : string) (expectedValue : option float)
    (s : State) :
  covenantAccepted s = true ->
  catalogued expression = false ->
  verify expression expectedValue s = (Return false, s).
Proof.
  intros Hacc Hout. unfold verify, bind, get. rewrite Hacc. cbn [negb].
  unfold try_catch. pose proof (find_catalogued expression) as Hfind.
  destruct (find _ _) as [m |]; [| reflexivity].
  destruct Hfind as [Hin _]. congruence.
Qed.

(** Under an institution without a text form the catch of [verify] turns
    the TypeError of [logVerification] into false. *)
Lemma verify_stalls (expression : string) (expectedValue : option float)
    (s : State) :
  covenantAccepted s = true ->
  printable (institutionId s) = false ->
  verify expression expectedValue s
  = (Return false, if catalogued expression then stalled s else s).
Proof.
  intros Hacc Hprint. unfold verify, bind, get. rewrite Hacc. cbn [negb].
  unfold try_catch. pose proof (find_catalogued expression) as Hfind.
  destruct (find _ _) as [m |].
  - destruct Hfind as [-> _]. now rewrite logVerification_stalls by assumption.
  - now rewrite Hfind.
Qed.

(** *** decode *)

Lemma decode_cell_run (cell : string) (s : State) :
  ready s ->
  decode_cell cell s = (Return (cell_bit cell), cell_state s cell).
Proof.
  intros Hacc. unfold decode_cell, cell_bit, cell_state.
  destruct (String.eqb cell "0"); [reflexivity |].
  unfold bind. rewrite verify_run by assumption.
  destruct (catalogued cell); reflexivity.
Qed.

Lemma mapM_decode_cell (cells : list string) (s : State) :
  ready s ->
  mapM decode_cell cells s = (Return (map cell_bit cells), fold_left cell_state cells s).
Proof.
  revert s. induction cells as [| c cells IH]; intros s Hacc; [reflexivity |].
  cbn [mapM map fold_left]. unfold bind at 1. rewrite decode_cell_run by assumption.
  unfold bind at 1. rewrite IH by now apply cell_state_ready.
  reflexivity.
Qed.

Lemma decode_run (encodedGrid : list (list string)) (s : State) :
  ready s ->
  decode encodedGrid s
  = (Return (chars_of (map cell_bit (concat encodedGrid))),
     logged "decode" (fold_left cell_state (concat encodedGrid) s)).
Proof.
  intros Hready. pose proof Hready as [Hacc Hprint].
  unfold decode, bind, get. rewrite Hacc. cbn [negb].
  rewrite mapM_decode_cell by assumption.
  rewrite logVerification_run, decode_loop_chars_of;
    [reflexivity | exact (proj2 (cells_state_ready _ _ Hready))].
Qed.

(** Under an institution without a text form [decode] throws: every cell
    reads as 0, and the log of [decode] itself ends in a TypeError. *)
Lemma decode_cell_stalls (cell : string) (s : State) :
  covenantAccepted s = true ->
  printable (institutionId s) = false ->
  exists s',
    decode_cell cell s = (Return "0"%char, s')
    /\ covenantAccepted s' = true
    /\ printable (institutionId s') = false.
Proof.
  intros Hacc Hprint. unfold decode_cell.
  destruct (String.eqb cell "0").
  - exists s. split; [reflexivity | split; assumption].
  - unfold bind. rewrite verify_stalls by assumption.
    eexists. split; [reflexivity |].
    destruct (catalogued cell); split; assumption.
Qed.

Lemma mapM_decode_cell_stalls (cells : list string) (s : State) :
  covenantAccepted s = true ->
  printable (institutionId s) = false ->
  exists bits s',
    mapM decode_cell cells s = (Return bits, s')
    /\ covenantAccepted s' = true
    /\ printable (institutionId s') = false.
Proof.
  revert s. induction cells as [| c cells IH]; intros s Hacc Hprint.
  - do 2 eexists. split; [reflexivity | split; assumption].
  - destruct (decode_cell_stalls c s Hacc Hprint) as (s1 & Hcell & Hacc1 & Hprint1).
    destruct (IH s1 Hacc1 Hprint1) as (bits & s' & Hrest & Hacc' & Hprint').
    exists ("0"%char :: bits), s'. split; [| split; assumption].
    cbn [mapM]. unfold bind at 1. rewrite Hcell.
    unfold bind at 1. now rewrite Hrest.
Qed.

Lemma decode_stalls (encodedGrid : list (list string)) (s : State) :
  covenantAccepted s = true ->
  printable (institutionId s) = false ->
  exists s', decode encodedGrid s = (Throw TypeError, s').
Proof.
  intros Hacc Hprint. unfold decode, bind, get. rewrite Hacc. cbn [negb].
  destruct (mapM_decode_cell_stalls (concat encodedGrid) s Hacc Hprint)
    as (bits & s' & -> & _ & Hprint').
  rewrite logVerification_stalls by assumption. eexists. reflexivity.
Qed.

Lemma cell_bit_is_bit (cell : string) : is_bit (cell_bit cell).
Proof.
  unfold cell_bit, is_bit.
  destruct (String.eqb cell "0"), (catalogued cell); auto.
Qed.

Lemma bits_of_cells (cells : list string) : Forall is_bit (map cell_bit cells).
Proof.
  induction cells; constructor; [apply cell_bit_is_bit | assumption].
Qed.

(** Every text of the standard table reads back as the bit 1. *)
Lemma standard_texts_bit :
  Forall (fun cell => cell_bit cell = "1"%char) standard_texts.
Proof. repeat constructor. Qed.

(** No text of the advanced table does. *)
Lemma advanced_texts_bit :
  Forall (fun cell => cell <> "0" /\ cell_bit cell = "0"%char)
         (map expr getAdvancedFractions).
Proof. repeat constructor; discriminate. Qed.

(** With the standard pool, the cells read back as the bits they encode. *)
Lemma cell_bits_standard (binary : list ascii) (fractionIndex : nat) :
  Forall is_bit binary ->
  map cell_bit (cells_of standard_texts binary fractionIndex) = binary.
Proof.
  intros Hbits. revert fractionIndex.
  induction Hbits as [| bit rest Hbit _ IH]; intros fractionIndex; [reflexivity |].
  cbn [cells_of]. destruct Hbit as [-> | ->]; cbn [Ascii.eqb map]; cbn -[cell_bit cells_of standard_texts Nat.modulo].
  - rewrite IH. reflexivity.
  - rewrite IH. f_equal.
    apply (proj1 (Forall_forall _ _) standard_texts_bit).
    apply nth_In. apply Nat.mod_upper_bound. discriminate.
Qed.

(** In whatever pool, a cell list that reads back as its bit string holds
    only literal zeros and cells that verify. *)
Lemma cells_read_back (pool : list string) (binary : list ascii) (fractionIndex : nat) :
  map cell_bit (cells_of pool binary fractionIndex) = binary ->
  Forall (fun cell => cell = "0" \/ cell_bit cell = "1"%char)
         (cells_of pool binary fractionIndex).
Proof.
  revert fractionIndex. induction binary as [| bit rest IH]; intros fractionIndex Heq;
    [constructor |].
  cbn [cells_of] in *. destruct (Ascii.eqb_spec bit "1") as [-> | Hne];
    cbn [map] in Heq; injection Heq as Hhead Htail;
    constructor; auto.
Qed.

End Run.

(** ** The codec *)

Module Codec.
Import FC Views Bits Grid Run.

Lemma encode_value (text : list Z) (useAdvanced : bool) (s : State) :
  ready s ->
  encode text useAdvanced s = (encoded_grid text useAdvanced, logged "encode" s).
Proof.
  intros [Hacc Hprint]. unfold encode, encoded_grid, bind, get. rewrite Hacc.
  cbn [negb]. fold (pool_of useAdvanced).
  rewrite encode_loop_run by apply pool_of_nonempty.
  cbn [app]. rewrite logVerification_run by assumption. unfold of_loop.
  now destruct (formatAsGrid _ 8).
Qed.

(** Under an institution without a text form [encode] throws. *)
Lemma encode_stalls (text : list Z) (useAdvanced : bool) (s : State) :
  covenantAccepted s = true ->
  printable (institutionId s) = false ->
  encode text useAdvanced s = (Throw TypeError, stalled s).
Proof.
  intros Hacc Hprint. unfold encode, bind, get. rewrite Hacc. cbn [negb].
  fold (pool_of useAdvanced).
  rewrite encode_loop_run by apply pool_of_nonempty.
  now rewrite logVerification_stalls by assumption.
Qed.

(** A text of 8-bit code units survives [encode] then [decode]. *)
Lemma round_trip_8bit (s : State) (text : list Z) :
  ready s ->
  Forall (fun c => 0 <= c < 256)%Z text ->
  exists grid s1 s2,
    encode text false s = (Return grid, s1)
    /\ decode grid s1 = (Return text, s2).
Proof.
  intros Hacc Htext.
  destruct (encode_run text false s Hacc) as (rows & Hrun & Hrows).
  exists rows, (logged "encode" s).
  eexists. split; [exact Hrun |].
  rewrite decode_run by exact Hacc.
  rewrite (Rows_concat _ _ _ Hrows).
  change (map expr (pool_of false)) with standard_texts.
  rewrite cell_bits_standard by now apply bits_binary_of.
  rewrite chars_of_binary_of by assumption. reflexivity.
Qed.

(** C1. Round trip: on an instance that has accepted the covenant under an
    institution that has a text form, for every text made of printable ASCII
    characters (codes 32 to 126), [encode] with the default pool returns a
    grid, and [decode] of that grid returns the text unchanged. *)
Theorem round_trip (s : State) (text : list Z) :
  covenantAccepted s = true ->
  printable (institutionId s) = true ->
  Forall (fun c => 32 <= c <= 126)%Z text ->
  exists grid s1 s2,
    encode text false s = (Return grid, s1)
    /\ decode grid s1 = (Return text, s2).
Proof.
  intros Hacc Hprint Htext. apply round_trip_8bit; [exact (conj Hacc Hprint) |].
  eapply Forall_impl; [| exact Htext]. cbn beta. intros c Hc. lia.
Qed.

(** The text "Hi" goes round. *)
Lemma round_trip_witness :
  covenantAccepted demo = true
  /\ printable (institutionId demo) = true
  /\ Forall (fun c => 32 <= c <= 126)%Z [72; 105]%Z
  /\ exists grid s1 s2,
       encode [72; 105]%Z false demo = (Return grid, s1)
       /\ decode grid s1 = (Return [72; 105]%Z, s2).
Proof.
  assert (Hacc : covenantAccepted demo = true) by reflexivity.
  assert (Hprint : printable (institutionId demo) = true) by reflexivity.
  assert (Htext : Forall (fun c => 32 <= c <= 126)%Z [72; 105]%Z)
    by (repeat constructor; discriminate).
  exact (conj Hacc (conj Hprint (conj Htext
           (round_trip demo [72; 105]%Z Hacc Hprint Htext)))).
Defined.

(** *** The grid of ["FC"] *)

(** C7, as stated, fails: in the grid of ["FC"] position 0 of the first row
    holds the literal zero, and the positions that hold expressions are not
    0,2,3,6 and 1,2,6,7. *)
Lemma encode_FC_claimed_positions :
  exists grid,
    fst (encode [70; 67]%Z false demo) = Return grid
    /\ nth 0 (nth 0 grid []) "" = "0"
    /\ map nonzero_positions grid <> [[0; 2; 3; 6]; [1; 2; 6; 7]].
Proof.
  exists FC_grid. split; [vm_compute; reflexivity |].
  split; [reflexivity | discriminate].
Qed.

(** C7, amended. On an instance that has accepted the covenant under an
    institution that has a text form, [encode("FC")] returns a grid of 2 rows and 16 cells; the cells that are
    not the literal zero are at positions 1,5,6 of the first row and 1,6,7 of
    the second (counted from 0), each one a text of the standard table, and
    cell by cell the grid shows the bit pattern 0100011001000011, which is
    the bit string of the text. *)
Theorem encode_FC (s : State) :
  covenantAccepted s = true ->
  printable (institutionId s) = true ->
  fst (encode [70; 67]%Z false s) = Return FC_grid
  /\ length FC_grid = 2
  /\ length (concat FC_grid) = 16
  /\ map nonzero_positions FC_grid = [[1; 5; 6]; [1; 6; 7]]
  /\ Forall (fun cell => cell = "0" \/ In cell standard_texts) (concat FC_grid)
  /\ map shown_bit (concat FC_grid) = list_ascii_of_string "0100011001000011"
  /\ binary_of [70; 67]%Z = list_ascii_of_string "0100011001000011".
Proof.
  intros Hacc Hprint. rewrite encode_value by (split; assumption). cbn [fst].
  split; [vm_compute; reflexivity |].
  repeat split; try reflexivity.
  repeat (apply Forall_cons;
          [first [left; reflexivity | right; apply catalogued_spec; reflexivity] |]).
  apply Forall_nil.
Qed.

Lemma encode_FC_witness :
  covenantAccepted demo = true
  /\ printable (institutionId demo) = true
  /\ fst (encode [70; 67]%Z false demo) = Return FC_grid.
Proof.
  assert (Hacc : covenantAccepted demo = true) by reflexivity.
  assert (Hprint : printable (institutionId demo) = true) by reflexivity.
  exact (conj Hacc (conj Hprint (proj1 (encode_FC demo Hacc Hprint)))).
Defined.

(** *** The shape of every grid *)

(** One cell per bit: a text of the pool for a 1, the literal zero otherwise. *)
Lemma cells_of_bits (pool : list string) (binary : list ascii) (fractionIndex : nat) :
  pool <> [] ->
  Forall2 (fun bit cell => if Ascii.eqb bit "1" then In cell pool else cell = "0")
          binary (cells_of pool binary fractionIndex).
Proof.
  intros Hne. revert fractionIndex.
  induction binary as [| bit rest IH]; intros fractionIndex; [constructor |].
  cbn [cells_of]. destruct (Ascii.eqb bit "1") eqn:Hbit; constructor; auto;
    rewrite Hbit; [| reflexivity].
  apply nth_In. apply Nat.mod_upper_bound.
  destruct pool; [congruence | discriminate].
Qed.

(** C6, as stated, fails: the one-character text ["√"] (code unit 8730, 14
    binary digits) is encoded in 14 cells, not 8. *)
Lemma encode_wide_character :
  exists grid,
    fst (encode [8730]%Z false demo) = Return grid
    /\ length (concat grid) = 14
    /\ 8 * length [8730%Z] = 8.
Proof.
  eexists. split; [vm_compute; reflexivity |]. split; reflexivity.
Qed.

(** C6, amended. On an instance that has accepted the covenant under an
    institution that has a text form, [encode] returns a grid for every text
    and either pool. Flattened, the grid has
    one cell per bit of the bit string of the text, in order: a text of the
    pool for a bit 1, the literal zero for a bit 0. Every row has between 1
    and 8 cells and every row but the last has 8, so nothing is cut and
    nothing is added. When every code unit of the text is below 256, the
    grid has [length text] rows of exactly 8 cells, [8 * length text] cells
    in all. *)
Theorem encode_grid_shape (s : State) (text : list Z) (useAdvanced : bool) :
  covenantAccepted s = true ->
  printable (institutionId s) = true ->
  exists grid s',
    encode text useAdvanced s = (Return grid, s')
    /\ Forall2 (fun bit cell =>
                  if Ascii.eqb bit "1"
                  then In cell (map expr (pool_of useAdvanced))
                  else cell = "0")
               (binary_of text) (concat grid)
    /\ Forall (fun row => 1 <= length row <= 8) grid
    /\ (forall k row,
          nth_error grid k = Some row -> S k < length grid -> length row = 8)
    /\ (Forall (fun c => 0 <= c < 256)%Z text ->
        length (concat grid) = 8 * length text
        /\ length grid = length text
        /\ Forall (fun row => length row = 8) grid).
Proof.
  intros Hacc0 Hprint0. pose proof (conj Hacc0 Hprint0 : ready s) as Hacc.
  destruct (encode_run text useAdvanced s Hacc) as (rows & Hrun & Hrows).
  exists rows, (logged "encode" s). split; [exact Hrun |].
  pose proof (Rows_concat _ _ _ Hrows) as Hflat.
  split.
  { rewrite Hflat. apply cells_of_bits.
    destruct useAdvanced; discriminate. }
  split; [apply (Rows_width _ _ _ Hrows); lia |].
  split; [apply (Rows_full _ _ _ Hrows) |].
  intros Htext.
  assert (Hlen : length (cells_of (map expr (pool_of useAdvanced)) (binary_of text) 0)
                 = 8 * length text)
    by (rewrite length_cells_of; now apply length_binary_of).
  split; [now rewrite Hflat |].
  apply (Rows_exact _ _ _ Hrows); [lia | exact Hlen].
Qed.

Lemma encode_grid_shape_witness :
  covenantAccepted demo = true
  /\ exists grid s',
       encode [76; 69; 86]%Z false demo = (Return grid, s')
       /\ length (concat grid) = 8 * 3.
Proof.
  assert (Hacc : covenantAccepted demo = true) by reflexivity.
  split; [exact Hacc |].
  destruct (encode_grid_shape demo [76; 69; 86]%Z false Hacc eq_refl)
    as (grid & s' & Hrun & _ & _ & _ & Hsmall).
  exists grid, s'. split; [exact Hrun |].
  apply Hsmall. repeat constructor; discriminate.
Defined.

(** *** What decode does with cells that do not verify *)

Lemma decode_value (encodedGrid : list (list string)) (s : State) :
  ready s ->
  fst (decode encodedGrid s) = Return (chars_of (map cell_bit (concat encodedGrid))).
Proof. intros Hacc. now rewrite decode_run. Qed.

Lemma failed_cell_bit (cell : string) (s : State) :
  ready s ->
  fst (verify cell (Some 1%float) s) = Return false ->
  cell_bit cell = "0"%char.
Proof.
  intros Hacc Hfail. rewrite verify_run in Hfail by assumption.
  unfold cell_bit. destruct (String.eqb cell "0"); [reflexivity |].
  destruct (catalogued cell); [discriminate Hfail | reflexivity].
Qed.

(** Two bit strings of the length of a text's bit string that decode to the
    text are both that bit string. *)
Lemma chars_of_determines_bits (text : list Z) (binary : list ascii) :
  Forall (fun c => 0 <= c < 256)%Z text ->
  Forall is_bit binary ->
  length binary = length (binary_of text) ->
  chars_of binary = text ->
  binary = binary_of text.
Proof.
  intros Htext Hbits Hlen Hchars.
  rewrite length_binary_of in Hlen by assumption.
  rewrite <- (binary_of_chars_of (length text) binary Hbits Hlen).
  now rewrite Hchars.
Qed.

(** C2, as stated, fails: in the grid of ["A"] the cell ["√1"] is replaced
    by ["1-1"], which does not verify against 1; [decode] raises nothing and
    returns the character of code 1. *)
Lemma decode_tampered_grid :
  fst (encode [65]%Z false demo)
    = Return [["0"; "√1"; "0"; "0"; "0"; "0"; "0"; "0!"]]
  /\ fst (verify "1-1" (Some 1%float) demo) = Return false
  /\ fst (decode [["0"; "1-1"; "0"; "0"; "0"; "0"; "0"; "0!"]] demo)
     = Return [1%Z].
Proof. repeat split; vm_compute; reflexivity. Qed.

(** C2, amended. On an instance that has accepted the covenant under an
    institution that has a text form, [decode] raises no error for a cell that is not the literal zero and fails
    verification against 1: it returns what it returns when that cell is the
    literal zero, that is, the cell counts as bit 0. Hence, in the grid
    encoded from a text of code units below 256, replacing a cell that is not
    the literal zero by a cell that fails verification makes [decode] return
    a text different from the original. *)
Theorem decode_coerces_failed_cells (s : State) :
  covenantAccepted s = true ->
  printable (institutionId s) = true ->
  (forall (g : list (list string)) (pre post : list string) (cell : string),
      concat g = pre ++ cell :: post ->
      cell <> "0" ->
      fst (verify cell (Some 1%float) s) = Return false ->
      exists chars s',
        decode g s = (Return chars, s')
        /\ fst (decode [pre ++ "0" :: post] s) = Return chars)
  /\ (forall (text : list Z) (g g' : list (list string)) (s1 : State)
             (pre post : list string) (cell cell' : string),
      Forall (fun c => 0 <= c < 256)%Z text ->
      encode text false s = (Return g, s1) ->
      concat g = pre ++ cell :: post ->
      cell <> "0" ->
      fst (verify cell' (Some 1%float) s1) = Return false ->
      concat g' = pre ++ cell' :: post ->
      exists chars s2,
        decode g' s1 = (Return chars, s2) /\ chars <> text).
Proof.
  intros Hacc0 Hprint0. pose proof (conj Hacc0 Hprint0 : ready s) as Hacc. split.
  - intros g pre post cell Hflat _ Hfail.
    do 2 eexists. split; [apply decode_run; exact Hacc |].
    rewrite decode_value by assumption. cbn [concat]. rewrite app_nil_r, Hflat.
    rewrite !map_app. cbn [map].
    rewrite (failed_cell_bit cell s Hacc Hfail). reflexivity.
  - intros text g g' s1 pre post cell cell' Htext Hrun Hflat Hcell Hfail Hflat'.
    destruct (encode_run text false s Hacc) as (rows & Hrun' & Hrows).
    rewrite Hrun in Hrun'. injection Hrun' as -> ->.
    assert (Hacc1 : ready (logged "encode" s)) by exact Hacc.
    pose proof (Rows_concat _ _ _ Hrows) as Hcells.
    change (map expr (pool_of false)) with standard_texts in Hcells.
    rewrite Hflat in Hcells.
    pose proof (cell_bits_standard (binary_of text) 0 (bits_binary_of text Htext))
      as Hbits.
    pose proof (cells_read_back _ _ _ Hbits) as Hread.
    rewrite <- Hcells in Hbits, Hread.
    assert (Hone : cell_bit cell = "1"%char).
    { apply Forall_app in Hread as [_ Hread]. inversion Hread as [| ? ? [? | ?] _]; subst.
      - congruence.
      - assumption. }
    do 2 eexists. split; [apply decode_run; exact Hacc1 |].
    intros Hsame. rewrite Hflat' in Hsame.
    apply chars_of_determines_bits in Hsame;
      [| assumption | apply bits_of_cells |].
    + rewrite <- Hbits, !map_app in Hsame. apply app_inv_head in Hsame.
      cbn [map] in Hsame. injection Hsame as Hsame.
      rewrite (failed_cell_bit cell' _ Hacc1 Hfail), Hone in Hsame. discriminate.
    + rewrite <- Hbits, !length_map, !length_app. reflexivity.
Qed.

Lemma decode_coerces_failed_cells_witness :
  covenantAccepted demo = true
  /\ exists chars s',
       decode [["0"; "1-1"; "0"; "0"; "0"; "0"; "0"; "0!"]] demo = (Return chars, s')
       /\ fst (decode [["0"] ++ "0" :: ["0"; "0"; "0"; "0"; "0"; "0!"]] demo)
          = Return chars.
Proof.
  assert (Hacc : covenantAccepted demo = true) by reflexivity.
  split; [exact Hacc |].
  apply (proj1 (decode_coerces_failed_cells demo Hacc eq_refl)
           [["0"; "1-1"; "0"; "0"; "0"; "0"; "0"; "0!"]]
           ["0"] ["0"; "0"; "0"; "0"; "0"; "0!"] "1-1").
  - reflexivity.
  - discriminate.
  - vm_compute. reflexivity.
Defined.

(** *** Grids whose cell count is not a multiple of 8 *)

(** C3, as stated, fails: a grid of nine cells is decoded without error to
    ["A"], the ninth cell being dropped. *)
Lemma decode_nine_cells :
  length (concat [["0"; "√1"; "0"; "0"; "0"; "0"; "0"; "0!"]; ["√1"]]) = 9
  /\ fst (decode [["0"; "√1"; "0"; "0"; "0"; "0"; "0"; "0!"]; ["√1"]] demo)
     = Return [65%Z].
Proof. split; vm_compute; reflexivity. Qed.

(** C3, amended. On an instance that has accepted the covenant under an
    institution that has a text form, [decode] returns for every grid, whatever its cell count [n]: it returns [n / 8]
    characters (integer division), read from the leading [8 * (n / 8)] cells;
    the [n mod 8] trailing cells are dropped without error. *)
Theorem decode_drops_trailing_cells (s : State) (g : list (list string)) :
  covenantAccepted s = true ->
  printable (institutionId s) = true ->
  exists chars s',
    decode g s = (Return chars, s')
    /\ length chars = length (concat g) / 8
    /\ fst (decode [firstn (8 * (length (concat g) / 8)) (concat g)] s)
       = Return chars.
Proof.
  intros Hacc0 Hprint0. pose proof (conj Hacc0 Hprint0 : ready s) as Hacc.
  do 2 eexists. split; [apply decode_run; exact Hacc |]. split.
  - now rewrite length_chars_of, length_map.
  - rewrite decode_value by assumption. cbn [concat]. rewrite app_nil_r.
    rewrite <- firstn_map.
    rewrite <- (length_map cell_bit (concat g)).
    now rewrite chars_of_firstn.
Qed.

Lemma decode_drops_trailing_cells_witness :
  covenantAccepted demo = true
  /\ exists chars s',
       decode [["0"; "√1"; "0"; "0"; "0"; "0"; "0"; "0!"]; ["√1"]] demo
         = (Return chars, s')
       /\ length chars = 9 / 8.
Proof.
  assert (Hacc : covenantAccepted demo = true) by reflexivity.
  split; [exact Hacc |].
  destruct (decode_drops_trailing_cells demo
              [["0"; "√1"; "0"; "0"; "0"; "0"; "0"; "0!"]; ["√1"]] Hacc eq_refl)
    as (chars & s' & Hrun & Hlen & _).
  exists chars, s'. split; [exact Hrun | exact Hlen].
Defined.

(** *** verify *)

(** C4, as stated, fails: [verify("√2", 1.41421356)] is false, since ["√2"]
    is not in the standard table; a third argument does not exist. *)
Lemma verify_sqrt2_rejected :
  fst (verify "√2" (Some 1.41421356%float) demo) = Return false.
Proof. vm_compute. reflexivity. Qed.

(** C4, amended. [verify(expression, expectedValue = 1)] has no tolerance
    parameter; the tolerance is the constant 0.0001. On an instance that has
    accepted the covenant under an institution that has a text form it
    returns true exactly when the expression is one
    of the texts of the standard table and [|1 - expectedValue| < 0.0001], 1
    being the value of every entry of that table, and false for every other
    expression; an omitted expected value is 1. So [verify("√2", 1.41421356)]
    and [verify("√2", 1.5)] are both false. *)
Theorem verify_catalog_tolerance (s : State) (expression : string)
    (expectedValue : float) :
  covenantAccepted s = true ->
  printable (institutionId s) = true ->
  (In expression (map expr getStandardFractions) ->
   fst (verify expression (Some expectedValue) s)
   = Return (PrimFloat.ltb (PrimFloat.abs (1 - expectedValue)) 0.0001))
  /\ (~ In expression (map expr getStandardFractions) ->
      fst (verify expression (Some expectedValue) s) = Return false)
  /\ verify expression None s = verify expression (Some 1%float) s
  /\ Forall (fun f => value f tt = 1%float) getStandardFractions
  /\ fst (verify "√2" (Some 1.41421356%float) s) = Return false
  /\ fst (verify "√2" (Some 1.5%float) s) = Return false.
Proof.
  intros Hacc Hprint. rewrite !verify_run by (split; assumption).
  repeat split.
  - intros Hin. apply catalogued_spec in Hin. now rewrite Hin.
  - intros Hout. destruct (catalogued expression) eqn:Hcat; [| reflexivity].
    apply catalogued_spec in Hcat. contradiction.
  - exact standard_values.
Qed.

Lemma verify_catalog_tolerance_witness :
  covenantAccepted demo = true
  /\ fst (verify "√36/6" (Some 1.00005%float) demo) = Return true
  /\ fst (verify "√36/6" (Some 1.001%float) demo) = Return false.
Proof.
  assert (Hacc : covenantAccepted demo = true) by reflexivity.
  split; [exact Hacc |]. split.
  - apply (proj1 (verify_catalog_tolerance demo "√36/6" 1.00005%float Hacc eq_refl)).
    apply catalogued_spec. reflexivity.
  - apply (proj1 (verify_catalog_tolerance demo "√36/6" 1.001%float Hacc eq_refl)).
    apply catalogued_spec. reflexivity.
Defined.

(** *** The identity set *)

Lemma lcg_next_range (x : Z) : (0 <= lcg_next x < 233280)%Z.
Proof. unfold lcg_next. apply Z.mod_pos_bound. lia. Qed.

(** Below 2^53 the product and the sum of the generator are exact. *)
Lemma mul_add_exact (x y z : Z) :
  (x * y + z < 2 ^ 53)%Z -> mul_add x y z = (x * y + z)%Z.
Proof.
  intros Hsmall. unfold mul_add. cbv zeta.
  destruct (Z.ltb_spec (x * y + z) (2 ^ 53)) as [_ | Hbig]; [reflexivity | lia].
Qed.

Lemma identity_loop_length (table : list Fraction) (n : nat) (seed : Z)
    (personalSet : list (option Fraction)) :
  length (identity_loop table n seed personalSet) = length personalSet + n.
Proof.
  revert seed personalSet. induction n as [| n IH]; intros seed personalSet.
  - cbn. lia.
  - cbn [identity_loop]. rewrite IH, length_app. cbn [length]. lia.
Qed.

Lemma identity_loop_lcg (table : list Fraction) (n : nat) (seed : Z)
    (personalSet : list (option Fraction)) :
  table <> [] ->
  (0 <= seed)%Z ->
  (seed * 9301 + 49297 < 2 ^ 53)%Z ->
  identity_loop table n seed personalSet
  = personalSet ++
    map (fun k => array_get table
                    (Z.to_nat (lcg seed (S k) mod Z.of_nat (length table))))
        (seq 0 n).
Proof.
  intros Htable. revert seed personalSet.
  induction n as [| n IH]; intros seed personalSet Hseed Hsmall.
  - cbn. now rewrite app_nil_r.
  - cbn [identity_loop]. rewrite mul_add_exact by assumption.
    assert (Hstep : Z.rem (seed * 9301 + 49297) 233280 = lcg_next seed)
      by (apply Z.rem_mod_nonneg; lia).
    rewrite Hstep. pose proof (lcg_next_range seed) as Hrange.
    rewrite Z.rem_mod_nonneg;
      [| lia | destruct table; [congruence | cbn [length]; lia]].
    rewrite IH;
      [| lia | change (2 ^ 53)%Z with 9007199254740992%Z; lia].
    rewrite <- app_assoc. cbn [app seq map].
    rewrite <- seq_shift, map_map. reflexivity.
Qed.

(** Past 2^53 the first step is rounded. The seed 983025000000 is the sum
    of the codes of 15000000 characters of code 65535: the numbers give a
    product and sum one below the integer, and the first entry of the set is
    entry 9 of the joint table where the exact generator gives entry 10. *)
Lemma identity_loop_rounded_seed :
  (983025000000 * 9301 + 49297 = 9143115525049297)%Z
  /\ mul_add 983025000000 9301 49297 = 9143115525049296%Z
  /\ identity_loop (getStandardFractions ++ getAdvancedFractions) 1
       983025000000 []
     = [array_get (getStandardFractions ++ getAdvancedFractions) 9]
  /\ (lcg 983025000000 1 mod 21 = 10)%Z.
Proof. repeat split; vm_compute; reflexivity. Qed.

Lemma fold_left_code_sum (name : list Z) :
  fold_left (fun acc char => (acc + char)%Z) name 0%Z = code_sum name.
Proof.
  unfold code_sum. apply fold_symmetric; intros; lia.
Qed.

Lemma code_sum_nonneg (name : list Z) :
  Forall (fun c => 0 <= c < 65536)%Z name -> (0 <= code_sum name)%Z.
Proof.
  unfold code_sum. induction 1 as [| c name Hc _ IH]; cbn [fold_right]; lia.
Qed.

Lemma lcg_selection_defined (name : list Z) (size : nat) :
  Forall (fun entry => entry <> None) (lcg_selection name size).
Proof.
  unfold lcg_selection. cbv zeta. apply Forall_forall. intros entry Hin.
  apply in_map_iff in Hin as (k & <- & _).
  unfold array_get. intros Hnone. apply nth_error_None in Hnone.
  pose proof (Z.mod_pos_bound (lcg (code_sum name) (S k))
                (Z.of_nat (length (getStandardFractions ++ getAdvancedFractions)))
                ltac:(cbn; lia)) as Hbound.
  lia.
Qed.

(** C5. [generateIdentitySet] is deterministic: on any two instances that
    have accepted the covenant, whatever their other fields and whatever was
    logged before, the calls for the same name (a sequence of UTF-16 code
    units) and integer size return the same sequence, of the requested size,
    and change nothing. When the first product and sum of the generator,
    (sum of the character codes) * 9301 + 49297, stay below 2^53, where the
    arithmetic of the numbers is exact, that sequence is the selection of
    the linear congruential generator seeded with the sum of the character
    codes of the name, and every entry of it is an entry of the joint
    table. *)
Theorem generateIdentitySet_deterministic (name : list Z) (setSize : option Z)
    (s1 s2 : State) :
  Forall (fun c => 0 <= c < 65536)%Z name ->
  covenantAccepted s1 = true ->
  covenantAccepted s2 = true ->
  exists set,
    generateIdentitySet name setSize s1 = (Return set, s1)
    /\ generateIdentitySet name setSize s2 = (Return set, s2)
    /\ length set = Z.to_nat match setSize with Some n => n | None => 16%Z end
    /\ ((code_sum name * 9301 + 49297 < 2 ^ 53)%Z ->
        set = lcg_selection name
                (Z.to_nat match setSize with Some n => n | None => 16%Z end)
        /\ Forall (fun entry => entry <> None) set).
Proof.
  intros Hname Hacc1 Hacc2.
  exists (identity_loop (getStandardFractions ++ getAdvancedFractions)
            (Z.to_nat match setSize with Some n => n | None => 16%Z end)
            (code_sum name) []).
  assert (Hrun : forall s, covenantAccepted s = true ->
            generateIdentitySet name setSize s
            = (Return (identity_loop (getStandardFractions ++ getAdvancedFractions)
                 (Z.to_nat match setSize with Some n => n | None => 16%Z end)
                 (code_sum name) []), s)).
  { intros s Hacc. unfold generateIdentitySet, bind, get, ret.
    rewrite Hacc. cbn [negb]. now rewrite fold_left_code_sum. }
  split; [now apply Hrun |]. split; [now apply Hrun |].
  split; [now rewrite identity_loop_length |].
  intros Hsmall.
  rewrite identity_loop_lcg;
    [| discriminate | now apply code_sum_nonneg | exact Hsmall].
  split; [reflexivity | apply lcg_selection_defined].
Qed.

(** Two calls for ["Alice"] and 8, the second after an [encode]. *)
Lemma generateIdentitySet_deterministic_witness :
  exists set,
    generateIdentitySet [65; 108; 105; 99; 101]%Z (Some 8%Z) demo
      = (Return set, demo)
    /\ generateIdentitySet [65; 108; 105; 99; 101]%Z (Some 8%Z)
         (snd (encode [65]%Z false demo))
       = (Return set, snd (encode [65]%Z false demo))
    /\ length set = 8
    /\ set = lcg_selection [65; 108; 105; 99; 101]%Z 8.
Proof.
  destruct (generateIdentitySet_deterministic
              [65; 108; 105; 99; 101]%Z (Some 8%Z)
              demo (snd (encode [65]%Z false demo)))
    as (set & Hfirst & Hsecond & Hlen & Hlcg).
  - repeat constructor; discriminate.
  - reflexivity.
  - reflexivity.
  - exists set. split; [exact Hfirst |]. split; [exact Hsecond |].
    split; [exact Hlen |]. apply Hlcg. reflexivity.
Defined.

(** *** The covenant gate *)

Lemma perform_refused (c : Call) (s : State) :
  covenantAccepted s = false ->
  perform c s = (Throw (Error (gate_message c)), s).
Proof.
  intros Hno. destruct c; cbn [perform gate_message];
    unfold encode, verify, decode, generateIdentitySet, bind, get, throw;
    rewrite Hno; reflexivity.
Qed.

Lemma perform_accepted (c : Call) (s : State) :
  ready s ->
  exists s', perform c s = (Return tt, s') /\ ready s'.
Proof.
  intros Hacc. destruct c as [text adv | e v | g | name n]; cbn [perform]; unfold bind at 1.
  - destruct (encode_run text adv s Hacc) as (rows & -> & _).
    eexists. split; [reflexivity | exact Hacc].
  - rewrite verify_run by assumption.
    destruct (catalogued e); eexists; (split; [reflexivity | exact Hacc]).
  - rewrite decode_run by assumption.
    eexists. split; [reflexivity |].
    now apply logged_ready, cells_state_ready.
  - unfold generateIdentitySet, bind, get, ret. rewrite (proj1 Hacc).
    eexists. split; [reflexivity | exact Hacc].
Qed.

Lemma perform_all_refused (calls : list Call) (s : State) :
  covenantAccepted s = false ->
  perform_all calls s
  = (map (fun c => Throw (Error (gate_message c))) calls, s).
Proof.
  intros Hno. induction calls as [| c rest IH]; [reflexivity |].
  cbn [perform_all map]. now rewrite perform_refused, IH.
Qed.

Lemma perform_all_accepted (calls : list Call) (s : State) :
  ready s ->
  fst (perform_all calls s) = map (fun _ => Return tt) calls.
Proof.
  revert s. induction calls as [| c rest IH]; intros s Hacc; [reflexivity |].
  cbn [perform_all map].
  destruct (perform_accepted c s Hacc) as (s' & -> & Hacc').
  specialize (IH s' Hacc'). destruct (perform_all rest s') as [rs s''].
  cbn [fst] in *. now rewrite IH.
Qed.

Lemma acceptCovenant_run (id covenantAgreement : Val) (s : State) :
  if commits covenantAgreement
  then exists s',
         acceptCovenant id covenantAgreement s
         = ((if printable id then Return true else Throw TypeError), s')
         /\ covenantAccepted s' = true
         /\ institutionId s' = id
         /\ verificationCount s' = verificationCount s
         /\ console s'
            = console s ++ (if printable id
                            then [LogCovenantAccepted id; LogMemorial FC_ORIGIN]
                            else [])
  else exists e, acceptCovenant id covenantAgreement s = (Throw e, s).
Proof.
  unfold commits, acceptCovenant.
  destruct (get_prop covenantAgreement "humanitarianCommitment") as [e | commitment].
  - exists e. reflexivity.
  - destruct (truthy commitment); cbn [negb].
    + unfold bind, get, put, template, console_log, bind, get, put, ret, throw.
      destruct (printable id).
      * eexists. split; [reflexivity |].
        cbn [covenantAccepted institutionId verificationCount console].
        rewrite <- app_assoc. repeat split.
      * eexists. split; [reflexivity |].
        cbn [covenantAccepted institutionId verificationCount console].
        rewrite app_nil_r. repeat split.
    + eexists. reflexivity.
Qed.

(** C9. The covenant is a precondition of the four operations. On a freshly
    constructed instance every call of [encode], [verify], [decode] or
    [generateIdentitySet], in any number and order, throws the Error of its
    gate and leaves the instance as constructed. [acceptCovenant] throws,
    changing nothing, unless the [humanitarianCommitment] field of the
    agreement is truthy. When it is and the institution id has a text form,
    [acceptCovenant] returns true, and every call of the four operations made
    afterwards returns normally. When it is and the institution id has no
    text form, [acceptCovenant] throws a TypeError at its first message,
    with the covenant already accepted, the id stored and nothing written.
    On any instance, an operation throws the Error of its gate exactly when
    the covenant has not been accepted. *)
Theorem covenant_gate (out : list LogLine) (id covenantAgreement : Val)
    (before after : list Call) :
  covenantAccepted (constructor out) = false
  /\ perform_all before (constructor out)
     = (map (fun c => Throw (Error (gate_message c))) before, constructor out)
  /\ (commits covenantAgreement = false ->
      forall s, exists e, acceptCovenant id covenantAgreement s = (Throw e, s))
  /\ (commits covenantAgreement = true ->
      printable id = true ->
      exists s',
        acceptCovenant id covenantAgreement (constructor out) = (Return true, s')
        /\ covenantAccepted s' = true
        /\ fst (perform_all after s') = map (fun _ => Return tt) after)
  /\ (commits covenantAgreement = true ->
      printable id = false ->
      exists s',
        acceptCovenant id covenantAgreement (constructor out) = (Throw TypeError, s')
        /\ covenantAccepted s' = true
        /\ institutionId s' = id
        /\ console s' = out)
  /\ (forall c s,
        fst (perform c s) = Throw (Error (gate_message c))
        <-> covenantAccepted s = false).
Proof.
  split; [reflexivity |].
  split; [now apply perform_all_refused |].
  split; [| split; [| split]].
  - intros Hno s. pose proof (acceptCovenant_run id covenantAgreement s) as Hrun.
    now rewrite Hno in Hrun.
  - intros Hyes Hprint.
    pose proof (acceptCovenant_run id covenantAgreement (constructor out)) as Hrun.
    rewrite Hyes, Hprint in Hrun. destruct Hrun as (s' & Hrun & Hacc & Hid & _).
    exists s'. split; [exact Hrun |]. split; [exact Hacc |].
    apply perform_all_accepted. split; [exact Hacc | now rewrite Hid].
  - intros Hyes Hprint.
    pose proof (acceptCovenant_run id covenantAgreement (constructor out)) as Hrun.
    rewrite Hyes, Hprint in Hrun.
    destruct Hrun as (s' & Hrun & Hacc & Hid & _ & Hout).
    exists s'. split; [exact Hrun |]. split; [exact Hacc |].
    split; [exact Hid |]. now rewrite Hout, app_nil_r.
  - intros c s''. split; [| intros Hno; now rewrite perform_refused].
    intros Hgate. destruct (covenantAccepted s'') eqn:Hacc''; [| reflexivity].
    destruct (printable (institutionId s'')) eqn:Hprint''.
    + destruct (perform_accepted c s'' (conj Hacc'' Hprint'')) as (t & Hrun'' & _).
      rewrite Hrun'' in Hgate. discriminate.
    + destruct c as [text adv | e v | g | name n]; cbn [perform] in Hgate;
        unfold bind at 1 in Hgate.
      * rewrite encode_stalls in Hgate by assumption. discriminate.
      * rewrite verify_stalls in Hgate by assumption. discriminate.
      * destruct (decode_stalls g s'' Hacc'' Hprint'') as (t & Hrun'').
        rewrite Hrun'' in Hgate. discriminate.
      * unfold generateIdentitySet, bind, get, ret in Hgate.
        rewrite Hacc'' in Hgate. discriminate.
Qed.

(** The four operations before and after the acceptance of [examples/demo.js]. *)
Lemma covenant_gate_witness :
  perform_all
    [ CallEncode [76; 69; 86]%Z false; CallVerify "√1" None;
      CallDecode [["0"; "√1"]]; CallGenerateIdentitySet [76; 69; 86]%Z (Some 8%Z) ]
    (constructor [])
  = ([ Throw (Error "Must accept Memorial Covenant before encoding");
       Throw (Error "Must accept Memorial Covenant before verification");
       Throw (Error "Must accept Memorial Covenant before decoding");
       Throw (Error "Must accept Memorial Covenant before identity generation") ],
     constructor [])
  /\ exists s',
       acceptCovenant (VStr "Demo-Institution-2025")
         (VObj [("humanitarianCommitment", VBool true)]) (constructor [])
       = (Return true, s')
       /\ fst (perform_all
                 [ CallEncode [76; 69; 86]%Z false; CallVerify "√1" None;
                   CallDecode [["0"; "√1"]];
                   CallGenerateIdentitySet [76; 69; 86]%Z (Some 8%Z) ] s')
          = [Return tt; Return tt; Return tt; Return tt].
Proof.
  pose proof (covenant_gate [] (VStr "Demo-Institution-2025")
                (VObj [("humanitarianCommitment", VBool true)])
                [ CallEncode [76; 69; 86]%Z false; CallVerify "√1" None;
                  CallDecode [["0"; "√1"]];
                  CallGenerateIdentitySet [76; 69; 86]%Z (Some 8%Z) ]
                [ CallEncode [76; 69; 86]%Z false; CallVerify "√1" None;
                  CallDecode [["0"; "√1"]];
                  CallGenerateIdentitySet [76; 69; 86]%Z (Some 8%Z) ])
    as (_ & Hbefore & _ & Hafter & _ & _).
  split; [exact Hbefore |].
  destruct (Hafter eq_refl eq_refl) as (s' & Hrun & _ & Hcalls).
  exists s'. split; [exact Hrun | exact Hcalls].
Defined.

(** *** What the operations change *)

Lemma only_logs_refl (s : State) : only_logs 0 s s.
Proof.
  repeat split; [lia |]. exists []. now rewrite app_nil_r.
Qed.

Lemma only_logs_logged (op : string) (n : Z) (s s' : State) :
  only_logs n s s' -> only_logs (n + 1) s (logged op s').
Proof.
  intros (Hacc & Hid & Hcount & lines & Hlines & Hlen).
  repeat split; cbn [logged covenantAccepted institutionId verificationCount console];
    try assumption; [lia |].
  rewrite Hlines, <- app_assoc. eexists. split; [reflexivity |].
  rewrite length_app. cbn [length]. lia.
Qed.

Lemma catalogued_zero : catalogued "0" = false.
Proof. reflexivity. Qed.

Lemma cell_state_catalogued (s : State) (cell : string) :
  cell_state s cell = if catalogued cell then logged "verify" s else s.
Proof.
  unfold cell_state. destruct (String.eqb_spec cell "0") as [-> |]; [| reflexivity].
  now rewrite catalogued_zero.
Qed.

Lemma only_logs_cells (cells : list string) (n : Z) (s s' : State) :
  only_logs n s s' ->
  only_logs (n + Z.of_nat (length (filter catalogued cells))) s
            (fold_left cell_state cells s').
Proof.
  revert n s'. induction cells as [| c cells IH]; intros n s' Hlogs.
  - cbn. now rewrite Z.add_0_r.
  - cbn [fold_left filter]. rewrite cell_state_catalogued.
    destruct (catalogued c).
    + cbn [length]. rewrite Nat2Z.inj_succ.
      replace (n + Z.succ (Z.of_nat (length (filter catalogued cells))))%Z
        with ((n + 1) + Z.of_nat (length (filter catalogued cells)))%Z by lia.
      apply IH. now apply only_logs_logged.
    + now apply IH.
Qed.

(** C8, as stated, fails: a call of [encode] leaves [verificationCount]
    at 1 where it was 0, and six more lines on the console. *)
Lemma encode_changes_instance :
  verificationCount demo = 0%Z
  /\ verificationCount (snd (encode [65]%Z false demo)) = 1%Z
  /\ length (console demo) = 2
  /\ length (console (snd (encode [65]%Z false demo))) = 8.
Proof. repeat split; vm_compute; reflexivity. Qed.

(** C8, amended. Once the covenant is accepted under an institution that has
    a text form, the value returned by [encode], [verify], [decode] and
    [generateIdentitySet] is a function of the arguments and the tables
    alone: two such instances return the same value. No operation changes
    [covenantAccepted] or [institutionId]. [generateIdentitySet] changes
    nothing at all. The other three go through [logVerification], which
    increments [verificationCount] and writes six lines to the console:
    [encode] counts 1, [verify] counts 1 when the expression is in the
    standard table and 0 otherwise, [decode] counts 1 plus 1 for each cell
    that is in the standard table; the console grows by six lines for each
    count and by nothing else. *)
Theorem operations_frame (s1 s2 : State) :
  covenantAccepted s1 = true ->
  printable (institutionId s1) = true ->
  covenantAccepted s2 = true ->
  printable (institutionId s2) = true ->
  (forall text useAdvanced, exists grid s1',
      encode text useAdvanced s1 = (Return grid, s1')
      /\ fst (encode text useAdvanced s2) = Return grid
      /\ only_logs 1 s1 s1')
  /\ (forall expression expectedValue, exists ok s1',
      verify expression expectedValue s1 = (Return ok, s1')
      /\ fst (verify expression expectedValue s2) = Return ok
      /\ only_logs (if catalogued expression then 1 else 0) s1 s1')
  /\ (forall encodedGrid, exists chars s1',
      decode encodedGrid s1 = (Return chars, s1')
      /\ fst (decode encodedGrid s2) = Return chars
      /\ only_logs (1 + Z.of_nat (length (filter catalogued (concat encodedGrid))))
                   s1 s1')
  /\ (forall name setSize, exists set,
      generateIdentitySet name setSize s1 = (Return set, s1)
      /\ fst (generateIdentitySet name setSize s2) = Return set).
Proof.
  intros Hacc1' Hprint1 Hacc2' Hprint2.
  pose proof (conj Hacc1' Hprint1 : ready s1) as Hacc1.
  pose proof (conj Hacc2' Hprint2 : ready s2) as Hacc2.
  split; [| split; [| split]].
  - intros text adv.
    destruct (encode_run text adv s1 Hacc1) as (rows & Hrun1 & _).
    exists rows, (logged "encode" s1). split; [exact Hrun1 |]. split.
    + rewrite encode_value in Hrun1 by assumption.
      rewrite encode_value by assumption. cbn [fst]. congruence.
    + apply (only_logs_logged "encode" 0 s1 s1), only_logs_refl.
  - intros e v. rewrite !verify_run by assumption.
    destruct (catalogued e); do 2 eexists;
      (split; [reflexivity |]; split; [reflexivity |]).
    + apply (only_logs_logged "verify" 0 s1 s1), only_logs_refl.
    + apply only_logs_refl.
  - intros g. rewrite !decode_run by assumption.
    do 2 eexists. split; [reflexivity |]. split; [reflexivity |].
    replace (1 + Z.of_nat (length (filter catalogued (concat g))))%Z
      with ((0 + Z.of_nat (length (filter catalogued (concat g)))) + 1)%Z by lia.
    apply only_logs_logged, only_logs_cells, only_logs_refl.
  - intros name n. unfold generateIdentitySet, bind, get, ret.
    rewrite Hacc1', Hacc2'. eexists. split; reflexivity.
Qed.

Lemma operations_frame_witness :
  exists chars s1',
    decode FC_grid demo = (Return chars, s1')
    /\ fst (decode FC_grid (snd (encode [65]%Z false demo))) = Return chars
    /\ only_logs (1 + Z.of_nat (length (filter catalogued (concat FC_grid))))
                 demo s1'.
Proof.
  exact (proj1 (proj2 (proj2
           (operations_frame demo (snd (encode [65]%Z false demo))
              eq_refl eq_refl eq_refl eq_refl)))
         FC_grid).
Defined.

(** *** verify knows the standard table only *)

Lemma parse_byte_range (b0 b1 b2 b3 b4 b5 b6 b7 : ascii) :
  is_bit b0 -> is_bit b1 -> is_bit b2 -> is_bit b3 ->
  is_bit b4 -> is_bit b5 -> is_bit b6 -> is_bit b7 ->
  (0 <= fromCharCode (parseInt2 [b0; b1; b2; b3; b4; b5; b6; b7]) < 256)%Z.
Proof.
  intros [-> | ->] [-> | ->] [-> | ->] [-> | ->]
         [-> | ->] [-> | ->] [-> | ->] [-> | ->]; vm_compute; split; congruence.
Qed.

(** What [decode] returns is made of 8-bit code units. *)
Lemma chars_of_range (binary : list ascii) :
  Forall is_bit binary -> Forall (fun c => 0 <= c < 256)%Z (chars_of binary).
Proof.
  remember (length binary) as m eqn:Hm.
  revert binary Hm. induction m as [m IH] using lt_wf_ind. intros binary Hm Hbits.
  destruct binary as [| b0 [| b1 [| b2 [| b3 [| b4 [| b5 [| b6 [| b7 rest]]]]]]]];
    try (cbn; constructor).
  - repeat match goal with
           | H : Forall is_bit (_ :: _) |- _ => inversion H; subst; clear H
           end.
    now apply parse_byte_range.
  - apply (IH (length rest)); [subst m; cbn [length]; lia | reflexivity |].
    do 8 (apply Forall_inv_tail in Hbits). exact Hbits.
Qed.

Lemma decode_refused (encodedGrid : list (list string)) (s : State) :
  covenantAccepted s = false ->
  decode encodedGrid s
  = (Throw (Error "Must accept Memorial Covenant before decoding"), s).
Proof.
  intros Hno. unfold decode, bind, get, throw. now rewrite Hno.
Qed.

(** C10. On an instance that has accepted the covenant, [verify] returns
    false, whatever the expected value, for every expression that is not
    textually one of the 16 texts of [getStandardFractions]; so it does for
    every expression of [getAdvancedFractions]. Hence a grid returned by
    [encode(text, true)] that holds an advanced expression does not decode
    back to the text, on any instance. *)
Theorem verify_rejects_uncatalogued (s : State) :
  covenantAccepted s = true ->
  length (map expr getStandardFractions) = 16
  /\ (forall expression expectedValue,
        ~ In expression (map expr getStandardFractions) ->
        verify expression expectedValue s = (Return false, s))
  /\ (forall fraction expectedValue,
        In fraction getAdvancedFractions ->
        verify (expr fraction) expectedValue s = (Return false, s))
  /\ (forall text grid s1 cell,
        encode text true s = (Return grid, s1) ->
        In cell (concat grid) ->
        In cell (map expr getAdvancedFractions) ->
        forall s2, fst (decode grid s2) <> Return text).
Proof.
  intros Hacc0. split; [reflexivity |].
  assert (Hout : forall expression expectedValue,
             ~ In expression (map expr getStandardFractions) ->
             verify expression expectedValue s = (Return false, s)).
  { intros e v Hnot. apply verify_uncatalogued; [assumption |].
    destruct (catalogued e) eqn:Hcat; [| reflexivity].
    apply catalogued_spec in Hcat. contradiction. }
  split; [exact Hout |]. split.
  - intros f v Hin. apply Hout. intros Hstd.
    apply (in_map expr) in Hin.
    pose proof (proj1 (Forall_forall _ _) advanced_texts_bit _ Hin) as [Hnz Hbit].
    pose proof (proj1 (Forall_forall _ _) standard_texts_bit _ Hstd) as Hone.
    cbn beta in Hone. rewrite Hone in Hbit. discriminate.
  - intros text grid s1 cell Hrun Hcell Hadv s2 Hback.
    destruct (printable (institutionId s)) eqn:Hprint0;
      [| rewrite encode_stalls in Hrun by assumption; discriminate].
    pose proof (conj Hacc0 Hprint0 : ready s) as Hacc.
    destruct (covenantAccepted s2) eqn:Hacc2;
      [| rewrite decode_refused in Hback by assumption; discriminate].
    destruct (printable (institutionId s2)) eqn:Hprint2;
      [| destruct (decode_stalls grid s2 Hacc2 Hprint2) as (t & Hstall);
         rewrite Hstall in Hback; discriminate].
    rewrite decode_value in Hback by (split; assumption). injection Hback as Hback.
    destruct (encode_run text true s Hacc) as (rows & Hrun' & Hrows).
    rewrite Hrun in Hrun'. injection Hrun' as -> ->.
    pose proof (Rows_concat _ _ _ Hrows) as Hflat. rewrite Hflat in Hback, Hcell.
    assert (Htext : Forall (fun c => 0 <= c < 256)%Z text)
      by (rewrite <- Hback; apply chars_of_range, bits_of_cells).
    apply chars_of_determines_bits in Hback;
      [| assumption | apply bits_of_cells
       | now rewrite length_map, length_cells_of].
    apply cells_read_back in Hback.
    pose proof (proj1 (Forall_forall _ _) Hback _ Hcell) as Hgood.
    pose proof (proj1 (Forall_forall _ _) advanced_texts_bit _ Hadv) as [Hnz Hbit].
    destruct Hgood as [Hzero | Hone]; [contradiction |].
    rewrite Hone in Hbit. discriminate.
Qed.

(** ["ÿÿÿ"] has 24 bits 1: the seventeenth takes the first advanced entry. *)
Lemma verify_rejects_uncatalogued_witness :
  covenantAccepted demo = true
  /\ verify "sin²θ + cos²θ" (Some 1%float) demo = (Return false, demo)
  /\ exists grid s1,
       encode [255; 255; 255]%Z true demo = (Return grid, s1)
       /\ In "∫(dx)" (concat grid)
       /\ fst (decode grid s1) <> Return [255; 255; 255]%Z.
Proof.
  assert (Hacc : covenantAccepted demo = true) by reflexivity.
  destruct (verify_rejects_uncatalogued demo Hacc) as (_ & _ & Hadv & Hgrid).
  split; [exact Hacc |]. split.
  - apply (Hadv (noted "sin²θ + cos²θ" "\sin^2\theta + \cos^2\theta"
                   (fun _ => 1%float) "θ = any angle")).
    right. right. left. reflexivity.
  - do 2 eexists. split; [vm_compute; reflexivity |].
    split; [vm_compute; tauto |].
    eapply Hgrid with (cell := "∫(dx)").
    + vm_compute. reflexivity.
    + vm_compute. tauto.
    + left. reflexivity.
Defined.

End Codec.

(** ** Further laws of the class and of its callers *)

From Stdlib Require Import Permutation.

Module Laws.
Import FC Covenant DeFiAuthentication Education Views Measures Bits Grid Run Codec.

(** *** formatAsGrid at any width *)

Lemma Rows_count (w : nat) (cells : list string) (rows : list (list string)) :
  Rows w cells rows -> 0 < w ->
  length rows = (length cells + w - 1) / w.
Proof.
  induction 1 as [| cells rows Hne _ IH]; intros Hw.
  - cbn [length]. rewrite Nat.div_small; [reflexivity | lia].
  - cbn [length]. rewrite IH by assumption. rewrite length_skipn.
    assert (Hlen : 0 < length cells) by (destruct cells; [congruence | cbn; lia]).
    destruct (le_lt_dec (length cells) w) as [Hle | Hgt].
    + replace (length cells - w + w - 1) with (w - 1) by lia.
      rewrite Nat.div_small by lia.
      apply (Nat.div_unique _ _ _ (length cells - 1)); lia.
    + replace (length cells + w - 1) with ((length cells - w + w - 1) + 1 * w) by lia.
      rewrite Nat.div_add by lia. lia.
Qed.

Lemma Rows_nil_iff (w : nat) (cells : list string) (rows : list (list string)) :
  Rows w cells rows -> (rows = [] <-> cells = []).
Proof.
  intros Hrows. inversion Hrows; subst; split; congruence.
Qed.

(** X1. [formatAsGrid(encoded, width)] with a positive width returns rows
    that are the cells, in order, and nothing else: ceil(n / width) rows for
    n cells, none empty, all of [width] cells but possibly the last. With
    width 0 it returns the empty grid for no cells and never returns for any
    other input. *)
Theorem formatAsGrid_partition (encoded : list string) (width : nat) :
  (0 < width ->
   exists rows,
     formatAsGrid encoded width = Some rows
     /\ concat rows = encoded
     /\ length rows = (length encoded + width - 1) / width
     /\ Forall (fun row => 1 <= length row <= width) rows
     /\ (forall k row,
           nth_error rows k = Some row -> S k < length rows -> length row = width))
  /\ formatAsGrid [] 0 = Some []
  /\ (encoded <> [] -> formatAsGrid encoded 0 = None).
Proof.
  split; [| split].
  - intros Hw. destruct width as [| w]; [lia |].
    destruct (formatAsGrid_rows encoded w) as (rows & Hrun & Hrows).
    exists rows. split; [exact Hrun |].
    split; [exact (Rows_concat _ _ _ Hrows) |].
    split; [exact (Rows_count _ _ _ Hrows Hw) |].
    split; [exact (Rows_width _ _ _ Hrows Hw) | exact (Rows_full _ _ _ Hrows)].
  - reflexivity.
  - intros Hne. unfold formatAsGrid.
    rewrite formatAsGrid_loop_equation_1. unfold formatAsGrid_loop_unfold_clause_1.
    destruct (lt_dec 0 (length encoded)) as [Hlt | Hno]; [reflexivity |].
    destruct encoded; [congruence | cbn [length] in Hno; lia].
Qed.

Lemma formatAsGrid_partition_witness :
  exists rows,
    formatAsGrid ["0"; "√1"; "0"; "0!"; "0"] 2 = Some rows
    /\ length rows = 3.
Proof.
  destruct (proj1 (formatAsGrid_partition ["0"; "√1"; "0"; "0!"; "0"] 2))
    as (rows & Hrun & _ & Hcount & _); [repeat constructor |].
  exists rows. split; [exact Hrun | exact Hcount].
Defined.

(** [decode] reads its grid through [flat()] only. *)
Lemma decode_flat (g1 g2 : list (list string)) (s : State) :
  concat g1 = concat g2 -> decode g1 s = decode g2 s.
Proof.
  intros Hflat. unfold decode. now rewrite Hflat.
Qed.

(** X2. The width of the rows does not matter to [decode]: cutting the
    cells into rows of any positive width with [formatAsGrid] gives a grid
    that [decode] reads exactly as the one-row grid of the same cells, with
    the same result and the same final state. *)
Theorem decode_any_width (cells : list string) (width : nat) (s : State) :
  covenantAccepted s = true ->
  0 < width ->
  exists rows,
    formatAsGrid cells width = Some rows
    /\ decode rows s = decode [cells] s.
Proof.
  intros Hacc Hw. destruct width as [| w]; [lia |].
  destruct (formatAsGrid_rows cells w) as (rows & Hrun & Hrows).
  exists rows. split; [exact Hrun |].
  apply decode_flat.
  rewrite (Rows_concat _ _ _ Hrows). cbn [concat]. now rewrite app_nil_r.
Qed.

Lemma decode_any_width_witness :
  exists rows,
    formatAsGrid (concat FC_grid) 5 = Some rows
    /\ decode rows demo = decode [concat FC_grid] demo.
Proof.
  apply (decode_any_width (concat FC_grid) 5 demo); [reflexivity | repeat constructor].
Defined.

(** *** Empty inputs and outputs *)

Lemma binary_of_nil_iff (text : list Z) : binary_of text = [] <-> text = [].
Proof.
  split; [| intros ->; reflexivity].
  destruct text as [| c text]; [reflexivity |]. unfold binary_of. cbn [map concat].
  intros Hnil. apply (f_equal (@length ascii)) in Hnil.
  rewrite length_app in Hnil. unfold padStart in Hnil.
  rewrite length_app, repeat_length in Hnil. cbn [length] in Hnil.
  destruct (toString2 c) as [| d digits] eqn:Hdigits; [| cbn [length] in Hnil; lia].
  cbn [length] in Hnil. lia.
Qed.

Lemma cells_of_nil_iff (pool : list string) (binary : list ascii) (fractionIndex : nat) :
  cells_of pool binary fractionIndex = [] <-> binary = [].
Proof.
  split; [| intros ->; reflexivity].
  intros Hnil. apply (f_equal (@length string)) in Hnil.
  rewrite length_cells_of in Hnil. now destruct binary.
Qed.

(** X3. On an instance that has accepted the covenant under an institution
    that has a text form, [encode] returns for every text, the empty text
    included, and the grid it returns is empty exactly for the empty text;
    [decode] returns for every grid, and the text it returns is empty
    exactly for grids of fewer than 8 cells. *)
Theorem empty_edges (s : State) :
  covenantAccepted s = true ->
  printable (institutionId s) = true ->
  (forall text useAdvanced, exists grid s',
      encode text useAdvanced s = (Return grid, s')
      /\ (grid = [] <-> text = []))
  /\ (forall g, exists chars s',
      decode g s = (Return chars, s')
      /\ (chars = [] <-> length (concat g) < 8)).
Proof.
  intros Hacc0 Hprint0. pose proof (conj Hacc0 Hprint0 : ready s) as Hacc. split.
  - intros text adv.
    destruct (encode_run text adv s Hacc) as (rows & Hrun & Hrows).
    exists rows, (logged "encode" s). split; [exact Hrun |].
    rewrite (Rows_nil_iff _ _ _ Hrows), cells_of_nil_iff. apply binary_of_nil_iff.
  - intros g. rewrite decode_run by assumption.
    do 2 eexists. split; [reflexivity |].
    pose proof (length_chars_of (map cell_bit (concat g))) as Hlen.
    rewrite length_map in Hlen. split.
    + intros Hnil. rewrite Hnil in Hlen. cbn [length] in Hlen.
      destruct (le_lt_dec 8 (length (concat g))) as [Hge | Hlt]; [| exact Hlt].
      pose proof (Nat.Div0.div_le_mono 8 (length (concat g)) 8 Hge) as Hdiv.
      rewrite Nat.div_same in Hdiv by lia. lia.
    + intros Hlt. rewrite Nat.div_small in Hlen by assumption.
      now apply length_zero_iff_nil.
Qed.

Lemma empty_edges_witness :
  exists grid s' chars s'',
    encode [] false demo = (Return grid, s')
    /\ grid = []
    /\ decode [["√1"; "0"; "0!"]] demo = (Return chars, s'')
    /\ chars = [].
Proof.
  destruct (empty_edges demo eq_refl eq_refl) as [Hencode Hdecode].
  destruct (Hencode [] false) as (grid & s' & Hrun & Hgrid).
  destruct (Hdecode [["√1"; "0"; "0!"]]) as (chars & s'' & Hrun' & Hchars).
  exists grid, s', chars, s''.
  split; [exact Hrun |]. split; [apply Hgrid; reflexivity |].
  split; [exact Hrun' |]. apply Hchars. cbn. lia.
Defined.

(** *** Which expression stands for which bit *)

Lemma pool_texts_distinct (useAdvanced : bool) :
  NoDup (map expr (pool_of useAdvanced))
  /\ Forall (fun cell => cell <> "0") (map expr (pool_of useAdvanced)).
Proof.
  destruct useAdvanced; split;
    repeat (constructor; [cbn; intuition discriminate |]); constructor.
Qed.

Lemma expression_cells_of (pool : list string) (binary : list ascii)
    (fractionIndex : nat) :
  pool <> [] ->
  Forall (fun cell => cell <> "0") pool ->
  expression_cells (cells_of pool binary fractionIndex)
  = map (fun k => nth (k mod length pool) pool "") (seq fractionIndex (ones binary)).
Proof.
  intros Hne Hpool. revert fractionIndex.
  induction binary as [| bit rest IH]; intros fractionIndex; [reflexivity |].
  unfold expression_cells, ones in *. cbn [cells_of filter].
  destruct (Ascii.eqb bit "1"); cbn [filter length seq map].
  - assert (Hin : In (nth (fractionIndex mod length pool) pool "") pool).
    { apply nth_In, Nat.mod_upper_bound. destruct pool; [congruence | discriminate]. }
    pose proof (proj1 (Forall_forall _ _) Hpool _ Hin) as Hnz.
    apply String.eqb_neq in Hnz. rewrite Hnz. cbn [negb].
    rewrite IH, Nat.add_1_r. reflexivity.
  - cbn [String.eqb Ascii.eqb Bool.eqb negb]. apply IH.
Qed.

(** X4. The cells of a grid that are not the literal zero are the texts of
    the pool taken in turn, starting again at the first text after the last:
    the k-th such cell, for the k-th bit 1 of the text, is entry [k mod p]
    of a pool of [p] texts. The texts of a pool are pairwise different, so
    two such cells less than [p] apart are different, and two cells exactly
    [p] apart are equal. The instance has accepted the covenant under an
    institution that has a text form, so that [encode] returns. *)
Theorem expressions_cycle (s : State) (text : list Z) (useAdvanced : bool) :
  covenantAccepted s = true ->
  printable (institutionId s) = true ->
  exists grid s',
    encode text useAdvanced s = (Return grid, s')
    /\ expression_cells (concat grid)
       = map (fun k => nth (k mod length (pool_of useAdvanced))
                           (map expr (pool_of useAdvanced)) "")
             (seq 0 (ones_of text))
    /\ (forall i j,
          i < j < ones_of text -> j - i < length (pool_of useAdvanced) ->
          nth_error (expression_cells (concat grid)) i
          <> nth_error (expression_cells (concat grid)) j)
    /\ (forall i,
          i + length (pool_of useAdvanced) < ones_of text ->
          nth_error (expression_cells (concat grid)) i
          = nth_error (expression_cells (concat grid))
              (i + length (pool_of useAdvanced))).
Proof.
  intros Hacc0 Hprint0. pose proof (conj Hacc0 Hprint0 : ready s) as Hacc.
  destruct (encode_run text useAdvanced s Hacc) as (rows & Hrun & Hrows).
  exists rows, (logged "encode" s). split; [exact Hrun |].
  destruct (pool_texts_distinct useAdvanced) as [Hdup Hnz].
  assert (Hp : 0 < length (pool_of useAdvanced)) by (destruct useAdvanced; cbn; lia).
  assert (Hcells :
    expression_cells (concat rows)
    = map (fun k => nth (k mod length (pool_of useAdvanced))
                        (map expr (pool_of useAdvanced)) "")
          (seq 0 (ones_of text))).
  { rewrite (Rows_concat _ _ _ Hrows), expression_cells_of.
    - now rewrite length_map.
    - destruct useAdvanced; discriminate.
    - exact Hnz. }
  split; [exact Hcells |].
  assert (Hnth : forall k, k < ones_of text ->
            nth_error (expression_cells (concat rows)) k
            = Some (nth (k mod length (pool_of useAdvanced))
                        (map expr (pool_of useAdvanced)) "")).
  { intros k Hk. rewrite Hcells, nth_error_map, nth_error_seq.
    destruct (Nat.ltb_spec k (ones_of text)); [reflexivity | lia]. }
  split.
  - intros i j Hij Hnear Heq. rewrite !Hnth in Heq by lia. injection Heq as Heq.
    apply (proj1 (NoDup_nth _ "") Hdup) in Heq;
      try (rewrite length_map; apply Nat.mod_upper_bound; lia).
    pose proof (Nat.div_mod_eq i (length (pool_of useAdvanced))) as Hi.
    pose proof (Nat.div_mod_eq j (length (pool_of useAdvanced))) as Hj.
    rewrite Heq in Hi.
    destruct (le_lt_dec (j / length (pool_of useAdvanced))
                        (i / length (pool_of useAdvanced))) as [Hle | Hlt].
    + pose proof (Nat.mul_le_mono_l _ _ (length (pool_of useAdvanced)) Hle). lia.
    + pose proof (Nat.mul_le_mono_l _ _ (length (pool_of useAdvanced)) Hlt). lia.
  - intros i Hi. rewrite !Hnth by lia. f_equal. f_equal.
    replace (i + length (pool_of useAdvanced))
      with (i + 1 * length (pool_of useAdvanced)) by lia.
    now rewrite Nat.Div0.mod_add.
Qed.

Lemma expressions_cycle_witness :
  exists grid s',
    encode [255; 255; 255]%Z false demo = (Return grid, s')
    /\ nth_error (expression_cells (concat grid)) 0
       = nth_error (expression_cells (concat grid)) 16
    /\ nth_error (expression_cells (concat grid)) 0
       <> nth_error (expression_cells (concat grid)) 15.
Proof.
  destruct (expressions_cycle demo [255; 255; 255]%Z false eq_refl eq_refl)
    as (grid & s' & Hrun & _ & Hnear & Hfar).
  exists grid, s'. split; [exact Hrun |]. split.
  - apply (Hfar 0). vm_compute. lia.
  - apply (Hnear 0 15); vm_compute; lia.
Defined.

(** *** Round trips with the advanced pool, and what decode can return *)

Lemma ones_cons (bit : ascii) (rest : list ascii) :
  ones (bit :: rest) = (if Ascii.eqb bit "1" then 1 else 0) + ones rest.
Proof. unfold ones. cbn [filter]. now destruct (Ascii.eqb bit "1"). Qed.

(** While the index stays within the first pool, a longer pool gives the
    same cells. *)
Lemma cells_of_longer_pool (pool more : list string) (binary : list ascii)
    (fractionIndex : nat) :
  fractionIndex + ones binary <= length pool ->
  cells_of (pool ++ more) binary fractionIndex = cells_of pool binary fractionIndex.
Proof.
  revert fractionIndex. induction binary as [| bit rest IH]; intros fractionIndex Hfit;
    [reflexivity |].
  rewrite ones_cons in Hfit. cbn [cells_of].
  destruct (Ascii.eqb bit "1").
  - rewrite IH by lia. f_equal.
    rewrite !Nat.mod_small by (rewrite ?length_app; lia).
    apply app_nth1. lia.
  - now rewrite IH by lia.
Qed.

(** A cell list that decodes to the text it encodes holds only literal zeros
    and cells that verify. *)
Lemma decoded_back_cells (pool : list string) (text : list Z) :
  chars_of (map cell_bit (cells_of pool (binary_of text) 0)) = text ->
  Forall (fun cell => cell = "0" \/ cell_bit cell = "1"%char)
         (cells_of pool (binary_of text) 0).
Proof.
  intros Hback.
  assert (Htext : Forall (fun c => 0 <= c < 256)%Z text)
    by (rewrite <- Hback; apply chars_of_range, bits_of_cells).
  apply cells_read_back. apply chars_of_determines_bits; try assumption.
  - apply bits_of_cells.
  - now rewrite length_map, length_cells_of.
Qed.

(** X5. With the advanced pool the round trip holds for short texts only:
    on an instance that has accepted the covenant under an institution that
    has a text form, for a text of code units below 256,
    [decode(encode(text, true))] returns the text exactly when the bit
    string of the text has at most 16 bits 1. *)
Theorem advanced_round_trip_iff (s : State) (text : list Z) :
  covenantAccepted s = true ->
  printable (institutionId s) = true ->
  Forall (fun c => 0 <= c < 256)%Z text ->
  ones_of text <= 16
  <-> exists grid s1 s2,
        encode text true s = (Return grid, s1)
        /\ decode grid s1 = (Return text, s2).
Proof.
  intros Hacc0 Hprint0 Htext. pose proof (conj Hacc0 Hprint0 : ready s) as Hacc.
  destruct (encode_run text true s Hacc) as (rows & Hrun & Hrows).
  pose proof (Rows_concat _ _ _ Hrows) as Hflat.
  assert (Hacc1 : ready (logged "encode" s)) by exact Hacc.
  change (map expr (pool_of true))
    with (standard_texts ++ map expr getAdvancedFractions) in Hflat.
  split.
  - intros Hfew. exists rows, (logged "encode" s). eexists.
    split; [exact Hrun |].
    rewrite decode_run, Hflat by assumption.
    rewrite cells_of_longer_pool by exact Hfew.
    rewrite cell_bits_standard by now apply bits_binary_of.
    now rewrite chars_of_binary_of.
  - intros (grid & s1 & s2 & Hrun' & Hback).
    rewrite Hrun in Hrun'. injection Hrun' as <- <-.
    rewrite decode_run in Hback by assumption. injection Hback as Hback _.
    rewrite Hflat in Hback. apply decoded_back_cells in Hback.
    destruct (le_lt_dec (ones_of text) 16) as [Hle | Hgt]; [exact Hle | exfalso].
    assert (Hin : In "∫(dx)"
                     (cells_of (standard_texts ++ map expr getAdvancedFractions)
                               (binary_of text) 0)).
    { apply (proj1 (filter_In (fun cell => negb (String.eqb cell "0")) _ _)).
      fold (expression_cells
              (cells_of (standard_texts ++ map expr getAdvancedFractions)
                        (binary_of text) 0)).
      rewrite expression_cells_of;
        [| discriminate | apply (proj2 (pool_texts_distinct true))].
      apply in_map_iff. exists 16. split; [reflexivity |].
      apply in_seq. unfold ones_of in Hgt. lia. }
    pose proof (proj1 (Forall_forall _ _) Hback _ Hin) as [Hzero | Hone];
      discriminate.
Qed.

Lemma advanced_round_trip_iff_witness :
  exists grid s1 s2,
    encode [76; 69; 86]%Z true demo = (Return grid, s1)
    /\ decode grid s1 = (Return [76; 69; 86]%Z, s2).
Proof.
  apply (advanced_round_trip_iff demo [76; 69; 86]%Z).
  - reflexivity.
  - reflexivity.
  - repeat constructor; discriminate.
  - vm_compute. lia.
Defined.

(** X6. Whatever [decode] returns, for any grid, is made of code units
    below 256 and goes round: encoded again and decoded, on any instance
    that has accepted the covenant under an institution that has a text
    form, it comes back unchanged. Hence no grid decodes, on any instance
    whatever, to a text that has a code unit of 256 or more; such a text
    never survives [encode] then [decode]. *)
Theorem decode_output_stable (s : State) (g : list (list string)) :
  covenantAccepted s = true ->
  printable (institutionId s) = true ->
  exists chars s',
    decode g s = (Return chars, s')
    /\ Forall (fun c => 0 <= c < 256)%Z chars
    /\ (forall s2, covenantAccepted s2 = true ->
        printable (institutionId s2) = true ->
        exists grid s3 s4,
          encode chars false s2 = (Return grid, s3)
          /\ decode grid s3 = (Return chars, s4))
    /\ (forall text s2 g2,
          Exists (fun c => ~ (0 <= c < 256)%Z) text ->
          fst (decode g2 s2) <> Return text).
Proof.
  intros Hacc0 Hprint0. pose proof (conj Hacc0 Hprint0 : ready s) as Hacc.
  do 2 eexists. split; [apply decode_run; exact Hacc |].
  assert (Hrange : forall g', Forall (fun c => 0 <= c < 256)%Z
                                (chars_of (map cell_bit (concat g'))))
    by (intros g'; apply chars_of_range, bits_of_cells).
  split; [apply Hrange |]. split.
  - intros s2 Hacc2 Hprint2. apply round_trip_8bit; [split; assumption | apply Hrange].
  - intros text s2 g2 Hwide Hback.
    destruct (covenantAccepted s2) eqn:Hacc2;
      [| rewrite decode_refused in Hback by assumption; discriminate].
    destruct (printable (institutionId s2)) eqn:Hprint2;
      [| destruct (decode_stalls g2 s2 Hacc2 Hprint2) as (t & Hstall);
         rewrite Hstall in Hback; discriminate].
    rewrite decode_value in Hback by (split; assumption). injection Hback as Hback.
    apply Exists_exists in Hwide as (c & Hin & Hc). apply Hc.
    rewrite <- Hback in Hin.
    exact (proj1 (Forall_forall _ _) (Hrange g2) c Hin).
Qed.

Lemma decode_output_stable_witness :
  exists chars s',
    decode [["√1"; "x"; "0"; "1/1"; "0"; "0"; "0!"; "2-1"; "7^0"]] demo
      = (Return chars, s')
    /\ Forall (fun c => 0 <= c < 256)%Z chars.
Proof.
  destruct (decode_output_stable demo
              [["√1"; "x"; "0"; "1/1"; "0"; "0"; "0!"; "2-1"; "7^0"]] eq_refl eq_refl)
    as (chars & s' & Hrun & Hrange & _).
  exists chars, s'. split; [exact Hrun | exact Hrange].
Defined.

(** *** The cost of a round trip *)

Lemma catalogued_cells_count (binary : list ascii) (fractionIndex : nat) :
  length (filter catalogued (cells_of standard_texts binary fractionIndex))
  = ones binary.
Proof.
  revert fractionIndex. induction binary as [| bit rest IH]; intros fractionIndex;
    [reflexivity |].
  rewrite ones_cons. cbn [cells_of]. destruct (Ascii.eqb bit "1"); cbn [filter].
  - assert (Hcat : catalogued (nth (fractionIndex mod length standard_texts)
                                   standard_texts "") = true).
    { apply catalogued_spec, nth_In, Nat.mod_upper_bound. discriminate. }
    rewrite Hcat. cbn [length]. now rewrite IH.
  - rewrite catalogued_zero. now rewrite IH.
Qed.

(** X7. A round trip with the default pool logs one verification for
    [encode], one for [decode] and one for each bit 1 of the text: on an
    instance that has accepted the covenant under an institution that has a
    text form, after [encode] then [decode] of a text of code units below
    256, [verificationCount] has grown by 2 plus the number of bits 1, and
    the covenant flag and the institution are as before. *)
Theorem round_trip_count (s : State) (text : list Z) :
  covenantAccepted s = true ->
  printable (institutionId s) = true ->
  Forall (fun c => 0 <= c < 256)%Z text ->
  exists grid s1 s2,
    encode text false s = (Return grid, s1)
    /\ decode grid s1 = (Return text, s2)
    /\ verificationCount s2 = (verificationCount s + 2 + Z.of_nat (ones_of text))%Z
    /\ covenantAccepted s2 = true
    /\ institutionId s2 = institutionId s.
Proof.
  intros Hacc0 Hprint0 Htext. pose proof (conj Hacc0 Hprint0 : ready s) as Hacc.
  destruct (encode_run text false s Hacc) as (rows & Hrun & Hrows).
  pose proof (Rows_concat _ _ _ Hrows) as Hflat.
  change (map expr (pool_of false)) with standard_texts in Hflat.
  assert (Hacc1 : ready (logged "encode" s)) by exact Hacc.
  exists rows, (logged "encode" s),
    (logged "decode" (fold_left cell_state (concat rows) (logged "encode" s))).
  split; [exact Hrun |]. split.
  - rewrite decode_run by assumption. do 2 f_equal.
    rewrite Hflat, cell_bits_standard by now apply bits_binary_of.
    now rewrite chars_of_binary_of.
  - pose proof (only_logs_cells (concat rows) 0 _ _
                  (only_logs_refl (logged "encode" s)))
      as (Hflag & Hid & Hcount & _).
    assert (Hones : length (filter catalogued (concat rows)) = ones_of text)
      by (rewrite Hflat; apply catalogued_cells_count).
    rewrite Hones in Hcount.
    cbn [logged covenantAccepted institutionId verificationCount].
    rewrite Hflag, Hid, Hcount. cbn [logged covenantAccepted institutionId verificationCount].
    repeat split; [lia | exact Hacc0].
Qed.

Lemma round_trip_count_witness :
  exists grid s1 s2,
    encode [70; 67]%Z false demo = (Return grid, s1)
    /\ decode grid s1 = (Return [70; 67]%Z, s2)
    /\ verificationCount s2 = (0 + 2 + 6)%Z.
Proof.
  destruct (round_trip_count demo [70; 67]%Z eq_refl eq_refl)
    as (grid & s1 & s2 & Hencode & Hdecode & Hcount & _).
  - repeat constructor; discriminate.
  - exists grid, s1, s2. split; [exact Hencode |]. split; [exact Hdecode |].
    exact Hcount.
Defined.

(** *** What no action undoes *)










(** An [acceptCovenant] for an id without a text form throws with the
    covenant accepted; the [encode] that follows throws after counting. *)
Lemma unprintable_id_throws_midway :
  exists s1 s2,
    act (DoAccept (VObj [("toString", VNull)])
           (VObj [("humanitarianCommitment", VBool true)])) (constructor [])
    = (Throw TypeError, s1)
    /\ covenantAccepted s1 = true
    /\ act (DoCall (CallEncode [65]%Z false)) s1 = (Throw TypeError, s2)
    /\ verificationCount s2 = 1%Z
    /\ length (console s2) = 1.
Proof. do 2 eexists. repeat split. Qed.


(** X9. [enforceCovenantCheck()] is an exact preflight for the gates of the
    four operations and touches nothing: it returns, leaving the instance
    as it was, exactly when the covenant is accepted, and then none of the
    four operations called next throws the Error of its gate; when moreover
    the institution has a text form, the operation called next returns.
    Otherwise it throws its COVENANT VIOLATION Error, and any of the four
    operations called next throws the Error of its gate. *)
Theorem enforceCovenantCheck_preflight (s : State) (c : Call) :
  (covenantAccepted s = true ->
   enforceCovenantCheck s = (Return tt, s)
   /\ (enforceCovenantCheck ;;; perform c) s = perform c s
   /\ fst (perform c s) <> Throw (Error (gate_message c))
   /\ (printable (institutionId s) = true ->
       exists s', (enforceCovenantCheck ;;; perform c) s = (Return tt, s')))
  /\ (covenantAccepted s = false ->
      enforceCovenantCheck s = (Throw (Error COVENANT_VIOLATION), s)
      /\ perform c s = (Throw (Error (gate_message c)), s))
  /\ (enforceCovenantCheck s = (Return tt, s) <-> covenantAccepted s = true).
Proof.
  split; [| split].
  - intros Hacc.
    assert (Hcheck : enforceCovenantCheck s = (Return tt, s))
      by (unfold enforceCovenantCheck, bind, get, throw, ret; now rewrite Hacc).
    assert (Hnext : (enforceCovenantCheck ;;; perform c) s = perform c s)
      by (unfold bind at 1; now rewrite Hcheck).
    split; [exact Hcheck |]. split; [exact Hnext |]. split.
    + destruct (printable (institutionId s)) eqn:Hprint.
      * destruct (perform_accepted c s (conj Hacc Hprint)) as (s' & -> & _).
        discriminate.
      * destruct c as [text adv | e v | g | name n]; cbn [perform]; unfold bind at 1.
        -- rewrite encode_stalls by assumption. discriminate.
        -- rewrite verify_stalls by assumption. discriminate.
        -- destruct (decode_stalls g s Hacc Hprint) as (t & ->). discriminate.
        -- unfold generateIdentitySet, bind, get, ret. rewrite Hacc. discriminate.
    + intros Hprint. rewrite Hnext.
      destruct (perform_accepted c s (conj Hacc Hprint)) as (s' & Hrun & _).
      exists s'. exact Hrun.
  - unfold enforceCovenantCheck, bind, get, throw, ret.
    intros Hno. rewrite Hno. cbn [negb]. split; [reflexivity |].
    now apply perform_refused.
  - unfold enforceCovenantCheck, bind, get, throw, ret.
    destruct (covenantAccepted s); cbn [negb]; split; auto; discriminate.
Qed.

Lemma enforceCovenantCheck_preflight_witness :
  enforceCovenantCheck (constructor [])
    = (Throw (Error COVENANT_VIOLATION), constructor [])
  /\ enforceCovenantCheck demo = (Return tt, demo).
Proof.
  split.
  - exact (proj1 (proj1 (proj2 (enforceCovenantCheck_preflight
                                  (constructor []) (CallDecode [])))
                        eq_refl)).
  - exact (proj1 (proj1 (enforceCovenantCheck_preflight demo (CallDecode []))
                        eq_refl)).
Defined.

(** *** The identity set *)

Lemma identity_loop_app (table : list Fraction) (n : nat) (seed : Z)
    (personalSet : list (option Fraction)) :
  identity_loop table n seed personalSet
  = personalSet ++ identity_loop table n seed [].
Proof.
  revert seed personalSet. induction n as [| n IH]; intros seed personalSet.
  - cbn. now rewrite app_nil_r.
  - cbn [identity_loop]. rewrite IH. rewrite (IH _ ([] ++ _)).
    now rewrite <- app_assoc.
Qed.

Lemma identity_loop_prefix (table : list Fraction) (n k : nat) (seed : Z) :
  identity_loop table n seed []
  = firstn n (identity_loop table (n + k) seed []).
Proof.
  revert seed. induction n as [| n IH]; intros seed; [reflexivity |].
  cbn [Nat.add identity_loop].
  rewrite identity_loop_app, (identity_loop_app _ (n + k)).
  cbn [app firstn]. now rewrite <- IH.
Qed.

(** X10. A smaller identity set is the beginning of a larger one: for the
    same name, on an instance that has accepted the covenant,
    [generateIdentitySet(name, n)] is the first [n] entries of
    [generateIdentitySet(name, m)] whenever [n <= m]; for [n <= 0] it is
    empty. *)
Theorem identity_set_prefix (name : list Z) (n m : Z) (s : State) :
  covenantAccepted s = true ->
  (n <= m)%Z ->
  exists small large,
    generateIdentitySet name (Some n) s = (Return small, s)
    /\ generateIdentitySet name (Some m) s = (Return large, s)
    /\ small = firstn (Z.to_nat n) large
    /\ ((n <= 0)%Z -> small = []).
Proof.
  intros Hacc Hle. unfold generateIdentitySet, bind, get, ret. rewrite Hacc.
  cbn [negb]. do 2 eexists. split; [reflexivity |]. split; [reflexivity |]. split.
  - replace (Z.to_nat m) with (Z.to_nat n + (Z.to_nat m - Z.to_nat n)) by lia.
    apply identity_loop_prefix.
  - intros Hneg. replace (Z.to_nat n) with 0 by lia. reflexivity.
Qed.

Lemma identity_set_prefix_witness :
  exists small large,
    generateIdentitySet [76; 69; 86]%Z (Some 5%Z) demo = (Return small, demo)
    /\ generateIdentitySet [76; 69; 86]%Z (Some 8%Z) demo = (Return large, demo)
    /\ small = firstn 5 large.
Proof.
  destruct (identity_set_prefix [76; 69; 86]%Z 5 8 demo eq_refl)
    as (small & large & Hsmall & Hlarge & Hprefix & _); [lia |].
  exists small, large. split; [exact Hsmall |]. split; [exact Hlarge | exact Hprefix].
Defined.

Lemma code_sum_permutation (name1 name2 : list Z) :
  Permutation name1 name2 -> code_sum name1 = code_sum name2.
Proof.
  unfold code_sum. induction 1; cbn [fold_right]; lia.
Qed.

(** X11. The identity set depends on the name through the sum of its
    character codes only: two names with the same sum, in particular two
    names made of the same characters in another order, get the same
    identity set on every instance. *)
Theorem identity_set_collisions (name1 name2 : list Z) (setSize : option Z)
    (s : State) :
  Permutation name1 name2 \/ code_sum name1 = code_sum name2 ->
  generateIdentitySet name1 setSize s = generateIdentitySet name2 setSize s.
Proof.
  intros Hsame.
  assert (Hsum : code_sum name1 = code_sum name2)
    by (destruct Hsame as [Hperm | Hsum];
        [now apply code_sum_permutation | exact Hsum]).
  unfold generateIdentitySet, bind, get, ret.
  destruct (covenantAccepted s); cbn [negb]; [| reflexivity].
  now rewrite !fold_left_code_sum, Hsum.
Qed.

(** "LEV" and "VEL"; "AD" and "BC". *)
Lemma identity_set_collisions_witness :
  generateIdentitySet [76; 69; 86]%Z (Some 8%Z) demo
    = generateIdentitySet [86; 69; 76]%Z (Some 8%Z) demo
  /\ generateIdentitySet [65; 68]%Z None demo
     = generateIdentitySet [66; 67]%Z None demo.
Proof.
  split.
  - apply identity_set_collisions. left.
    apply (Permutation_rev [76; 69; 86]%Z).
  - apply identity_set_collisions. right. reflexivity.
Defined.

Lemma lcg_succ (seed : Z) (k : nat) : lcg seed (S k) = lcg_next (lcg seed k).
Proof.
  revert seed. induction k as [| k IH]; intros seed; [reflexivity |].
  change (lcg seed (S (S k))) with (lcg (lcg_next seed) (S k)).
  now rewrite IH.
Qed.

Lemma lcg_next_mod3 (x : Z) : (lcg_next x mod 3 = (x + 1) mod 3)%Z.
Proof.
  unfold lcg_next.
  rewrite Z.mod_mod_divide by (exists 77760%Z; lia).
  replace (x * 9301 + 49297)%Z with (x + 1 + (3100 * x + 16432) * 3)%Z by lia.
  apply Z.mod_add. lia.
Qed.

Lemma lcg_mod3 (seed : Z) (k : nat) :
  (lcg seed k mod 3 = (seed + Z.of_nat k) mod 3)%Z.
Proof.
  induction k as [| k IH].
  - cbn [lcg]. f_equal. lia.
  - rewrite lcg_succ, lcg_next_mod3.
    rewrite Z.add_mod, IH, <- Z.add_mod by lia. f_equal. lia.
Qed.

Lemma joint_table_distinct : NoDup (map expr joint_table).
Proof. exact (proj1 (pool_texts_distinct true)). Qed.

(** X12. The entries of an identity set follow a fixed pattern modulo 3:
    the k-th entry (from 0) is the entry of the joint table of 21 fractions
    at an index congruent to (sum of the character codes + k + 1) modulo 3.
    Hence two consecutive entries of an identity set are never the same
    fraction. This holds for the names whose sum of character codes keeps
    the first product and sum of the generator below 2^53, where the
    arithmetic of the numbers is exact. *)
Theorem identity_set_pattern (name : list Z) (setSize : option Z) (s : State) :
  Forall (fun c => 0 <= c < 65536)%Z name ->
  (code_sum name * 9301 + 49297 < 2 ^ 53)%Z ->
  covenantAccepted s = true ->
  exists indices,
    generateIdentitySet name setSize s
      = (Return (map (array_get joint_table) indices), s)
    /\ (forall k i,
          nth_error indices k = Some i ->
          i < length joint_table
          /\ (Z.of_nat i mod 3 = (code_sum name + Z.of_nat k + 1) mod 3)%Z)
    /\ (forall k i j,
          nth_error indices k = Some i ->
          nth_error indices (S k) = Some j ->
          array_get joint_table i <> array_get joint_table j).
Proof.
  intros Hname Hsmall Hacc.
  set (n := Z.to_nat match setSize with Some n => n | None => 16%Z end).
  set (index_at := fun k : nat =>
         Z.to_nat (lcg (code_sum name) (S k) mod Z.of_nat (length joint_table))).
  exists (map index_at (seq 0 n)).
  assert (Hindex : forall k i,
            nth_error (map index_at (seq 0 n)) k = Some i ->
            i < length joint_table
            /\ (Z.of_nat i mod 3 = (code_sum name + Z.of_nat k + 1) mod 3)%Z).
  { intros k i Hk. rewrite nth_error_map, nth_error_seq in Hk.
    destruct (Nat.ltb_spec k n); [| discriminate]. cbn in Hk. injection Hk as <-.
    unfold index_at.
    pose proof (Z.mod_pos_bound (lcg (code_sum name) (S k))
                  (Z.of_nat (length joint_table)) ltac:(cbn; lia)) as Hbound.
    split; [lia |].
    rewrite Z2Nat.id by lia.
    change (Z.of_nat (length joint_table)) with 21%Z.
    rewrite Z.mod_mod_divide by (exists 7%Z; lia).
    rewrite lcg_mod3. f_equal. lia. }
  split; [| split].
  - unfold generateIdentitySet, bind, get, ret. rewrite Hacc. cbn [negb].
    rewrite fold_left_code_sum. fold joint_table.
    rewrite identity_loop_lcg;
      [| discriminate | now apply code_sum_nonneg | exact Hsmall].
    cbn [app]. now rewrite map_map.
  - exact Hindex.
  - intros k i j Hi Hj Heq.
    destruct (Hindex _ _ Hi) as [Hilt Himod].
    destruct (Hindex _ _ Hj) as [Hjlt Hjmod].
    assert (Hij : i = j).
    { apply (proj1 (NoDup_nth_error (map expr joint_table)) joint_table_distinct);
        [now rewrite length_map |].
      unfold array_get in Heq. now rewrite !nth_error_map, Heq. }
    subst j. rewrite Himod in Hjmod.
    rewrite Nat2Z.inj_succ in Hjmod.
    remember (code_sum name + Z.of_nat k + 1)%Z as x eqn:Hx.
    replace (code_sum name + Z.succ (Z.of_nat k) + 1)%Z with (x + 1)%Z in Hjmod
      by lia.
    pose proof (Z.mod_pos_bound x 3 ltac:(lia)).
    pose proof (Z.mod_pos_bound (x + 1) 3 ltac:(lia)).
    pose proof (Z.div_mod x 3 ltac:(lia)).
    pose proof (Z.div_mod (x + 1) 3 ltac:(lia)). lia.
Qed.

Lemma identity_set_pattern_witness :
  exists indices,
    generateIdentitySet [65; 108; 105; 99; 101]%Z (Some 8%Z) demo
      = (Return (map (array_get joint_table) indices), demo)
    /\ (forall k i,
          nth_error indices k = Some i ->
          i < length joint_table
          /\ (Z.of_nat i mod 3 = (478 + Z.of_nat k + 1) mod 3)%Z).
Proof.
  destruct (identity_set_pattern [65; 108; 105; 99; 101]%Z (Some 8%Z) demo)
    as (indices & Hrun & Hindex & _).
  - repeat constructor; discriminate.
  - reflexivity.
  - reflexivity.
  - exists indices. split; [exact Hrun | exact Hindex].
Defined.

(** *** The caller DeFiAuthentication *)

Lemma every_verified_same_length (expected : list (option Fraction))
    (responses1 responses2 : list Val) (index : nat) (s : State) :
  length responses1 = length responses2 ->
  every_verified expected responses1 index s
  = every_verified expected responses2 index s.
Proof.
  revert responses2 index s.
  induction responses1 as [| r1 rest1 IH]; intros [| r2 rest2] index s Hlen;
    try discriminate Hlen; [reflexivity |].
  cbn [every_verified].
  destruct (array_get expected index) as [[fraction |] |]; try reflexivity.
  unfold bind. destruct (verify (expr fraction) (Some 1%float) s) as [[[|] | e |] s'];
    try reflexivity.
  apply IH. now injection Hlen.
Qed.

Lemma every_verified_too_many (expected : list (option Fraction))
    (responses : list Val) (index : nat) (s : State) :
  index <= length expected ->
  length expected < index + length responses ->
  fst (every_verified expected responses index s) <> Return true.
Proof.
  revert index s. induction responses as [| r rest IH]; intros index s Hin Hlen.
  - cbn [length] in Hlen. lia.
  - cbn [every_verified].
    destruct (array_get expected index) as [[fraction |] |] eqn:Hget;
      try discriminate.
    assert (Hlt : index < length expected)
      by (apply nth_error_Some; unfold array_get in Hget; congruence).
    unfold bind. destruct (verify (expr fraction) (Some 1%float) s) as [[[|] | e |] s'];
      try discriminate.
    apply IH; cbn [length] in Hlen; lia.
Qed.

(** X13. [verifyUserResponse] of DeFiAuthentication never looks at the
    answers: for the same user address, two lists of responses of the same
    length get the same verdict and leave the same state, whatever they
    hold. On a new DeFiAuthentication the empty list of responses is
    accepted for every address, and a list of more than three responses is
    never accepted (the call returns false or throws a TypeError). *)
Theorem verifyUserResponse_ignores_answers (userAddress : list Z)
    (responses1 responses2 : list Val) (s : State) (out : list LogLine) :
  (length responses1 = length responses2 ->
   verifyUserResponse userAddress responses1 s
   = verifyUserResponse userAddress responses2 s)
  /\ covenantAccepted (DeFiAuthentication.new out) = true
  /\ verifyUserResponse userAddress [] (DeFiAuthentication.new out)
     = (Return true, DeFiAuthentication.new out)
  /\ (3 < length responses1 ->
      fst (verifyUserResponse userAddress responses1 s) <> Return true).
Proof.
  split; [| split; [| split]].
  - intros Hlen. unfold verifyUserResponse, bind.
    destruct (generateIdentitySet userAddress (Some 5%Z) s) as [[set | e |] s'];
      try reflexivity.
    now apply every_verified_same_length.
  - reflexivity.
  - reflexivity.
  - intros Hmany. unfold verifyUserResponse, bind.
    destruct (generateIdentitySet userAddress (Some 5%Z) s) as [[set | e |] s'];
      try discriminate.
    apply every_verified_too_many; [lia |]. unfold slice.
    rewrite length_firstn. cbn [Nat.sub]. lia.
Qed.

(** Right and wrong answers of the same number are judged alike. *)
Lemma verifyUserResponse_ignores_answers_witness :
  verifyUserResponse [65; 108; 105; 99; 101]%Z
    [VStr "√1"; VStr "0!"] (DeFiAuthentication.new [])
  = verifyUserResponse [65; 108; 105; 99; 101]%Z
      [VStr "wrong"; VNull] (DeFiAuthentication.new []).
Proof.
  apply (proj1 (verifyUserResponse_ignores_answers
                  [65; 108; 105; 99; 101]%Z
                  [VStr "√1"; VStr "0!"] [VStr "wrong"; VNull]
                  (DeFiAuthentication.new []) [])).
  reflexivity.
Defined.

(** *** One row for each character *)

Lemma Rows_nth (w : nat) (cells : list string) (rows : list (list string)) :
  Rows w cells rows ->
  forall k row, nth_error rows k = Some row -> row = firstn w (skipn (k * w) cells).
Proof.
  induction 1 as [| cells rows _ _ IH]; intros k row Hk.
  - destruct k; discriminate.
  - destruct k as [| k]; cbn [nth_error] in Hk.
    + injection Hk as <-. reflexivity.
    + rewrite (IH k row Hk), skipn_skipn. do 2 f_equal. lia.
Qed.

Lemma shown_bits_of_cells (pool : list string) (binary : list ascii)
    (fractionIndex : nat) :
  pool <> [] ->
  Forall (fun cell => cell <> "0") pool ->
  Forall is_bit binary ->
  map shown_bit (cells_of pool binary fractionIndex) = binary.
Proof.
  intros Hne Hpool Hbits. revert fractionIndex.
  induction Hbits as [| bit rest Hbit _ IH]; intros fractionIndex; [reflexivity |].
  cbn [cells_of]. destruct Hbit as [-> | ->]; cbn [Ascii.eqb Bool.eqb andb map];
    rewrite IH; f_equal.
  unfold shown_bit.
  assert (Hin : In (nth (fractionIndex mod length pool) pool "") pool).
  { apply nth_In, Nat.mod_upper_bound. destruct pool; [congruence | discriminate]. }
  pose proof (proj1 (Forall_forall _ _) Hpool _ Hin) as Hnz.
  apply String.eqb_neq in Hnz. now rewrite Hnz.
Qed.

Lemma binary_of_window (text : list Z) (k : nat) (c : Z) :
  Forall (fun c => 0 <= c < 256)%Z text ->
  nth_error text k = Some c ->
  firstn 8 (skipn (k * 8) (binary_of text)) = byte_of c.
Proof.
  intros Htext. revert k. induction Htext as [| c0 text Hc0 _ IH]; intros k Hk.
  - destruct k; discriminate.
  - destruct (byte_of_spec c0 Hc0) as (Hlen & _).
    unfold binary_of. cbn [map concat]. fold (byte_of c0).
    change (concat (map (fun char => padStart 8 "0" (toString2 char)) text))
      with (binary_of text).
    destruct k as [| k]; cbn [nth_error] in Hk.
    + injection Hk as <-. cbn [Nat.mul skipn].
      rewrite firstn_app, Hlen, Nat.sub_diag, firstn_O, app_nil_r.
      apply firstn_all2. lia.
    + replace (S k * 8) with (8 + k * 8) by lia.
      rewrite skipn_app, Hlen.
      replace (8 + k * 8 - 8) with (k * 8) by lia.
      rewrite skipn_all2 by lia. cbn [app]. now apply IH.
Qed.

(** X14. With either pool, a text of code units below 256 is laid out one
    character per row: on an instance that has accepted the covenant under
    an institution that has a text form, [encode] returns a grid that has as
    many rows as the text has characters, and row k shows, zero cell for 0
    and expression cell for 1, the 8 binary digits of character k, most
    significant first, which read in base 2 give its code. *)
Theorem rows_show_characters (s : State) (text : list Z) (useAdvanced : bool) :
  covenantAccepted s = true ->
  printable (institutionId s) = true ->
  Forall (fun c => 0 <= c < 256)%Z text ->
  exists grid s',
    encode text useAdvanced s = (Return grid, s')
    /\ length grid = length text
    /\ (forall k c,
          nth_error text k = Some c ->
          exists row,
            nth_error grid k = Some row
            /\ map shown_bit row = padStart 8 "0" (toString2 c)
            /\ parseInt2 (map shown_bit row) = Some c).
Proof.
  intros Hacc0 Hprint0 Htext. pose proof (conj Hacc0 Hprint0 : ready s) as Hacc.
  destruct (encode_run text useAdvanced s Hacc) as (rows & Hrun & Hrows).
  exists rows, (logged "encode" s). split; [exact Hrun |].
  assert (Hlen : length rows = length text).
  { apply (Rows_exact _ _ _ Hrows); [lia |].
    rewrite length_cells_of. now apply length_binary_of. }
  split; [exact Hlen |].
  intros k c Hk.
  assert (Hlt : k < length rows)
    by (rewrite Hlen; apply nth_error_Some; congruence).
  destruct (nth_error rows k) as [row |] eqn:Hrow;
    [| apply nth_error_None in Hrow; lia].
  exists row. split; [reflexivity |].
  assert (Hshown : map shown_bit row = byte_of c).
  { rewrite (Rows_nth _ _ _ Hrows k row Hrow).
    rewrite <- firstn_map, <- skipn_map.
    rewrite shown_bits_of_cells.
    - now apply binary_of_window.
    - destruct useAdvanced; discriminate.
    - apply (proj2 (pool_texts_distinct useAdvanced)).
    - now apply bits_binary_of. }
  assert (Hc : (0 <= c < 256)%Z)
    by (exact (proj1 (Forall_forall _ _) Htext c (nth_error_In _ _ Hk))).
  rewrite Hshown. split; [reflexivity |].
  now destruct (byte_of_spec c Hc) as (_ & _ & Hparse).
Qed.

Lemma rows_show_characters_witness :
  exists grid s',
    encode [76; 69; 86]%Z true demo = (Return grid, s')
    /\ length grid = 3.
Proof.
  destruct (rows_show_characters demo [76; 69; 86]%Z true eq_refl eq_refl)
    as (grid & s' & Hrun & Hlen & _).
  - repeat constructor; discriminate.
  - exists grid, s'. split; [exact Hrun | exact Hlen].
Defined.

(** *** The caller FCEducationalAssessment *)

Lemma map_get_set {V : Type} (k : string) (v : V) (m : list (string * V)) :
  map_get k (map_set k v m) = Some v.
Proof.
  induction m as [| [k' v'] m IH]; cbn [map_set map_get].
  - now rewrite String.eqb_refl.
  - destruct (String.eqb k' k) eqn:Hk; cbn [map_get].
    + now rewrite String.eqb_refl.
    + now rewrite Hk.
Qed.

Section Assessments.

Variable shuffleArray : list string -> list string.
Variable explain : Fraction -> string.
Variable percent : Z -> nat -> Z.

Lemma createAssessment_loop_answers (expressions : list Fraction) (n i : nat)
    (qs : list Question) :
  expressions <> [] ->
  exists qs',
    createAssessment_loop shuffleArray explain expressions n i qs = inr (qs ++ qs')
    /\ map correctAnswer qs'
       = map (fun j => nth (j mod length expressions) (map expr expressions) "")
             (seq i n).
Proof.
  intros Hne. revert i qs. induction n as [| n IH]; intros i qs.
  - exists []. split; [cbn; now rewrite app_nil_r | reflexivity].
  - cbn [createAssessment_loop]. unfold array_get.
    destruct (nth_error expressions (i mod length expressions)) as [correct |] eqn:Hnth.
    + destruct (IH (i + 1)
                  (qs ++ [ {| id := Z.of_nat i + 1;
                              question := "Which expression equals 1?";
                              options := shuffleArray (expr correct :: generateIncorrectOptions);
                              correctAnswer := expr correct;
                              explanation := explain correct |} ]))
        as (qs' & Hrun & Hanswers).
      eexists. split; [rewrite Hrun, <- app_assoc; reflexivity |].
      cbn [app map seq correctAnswer]. rewrite Nat.add_1_r in Hanswers.
      rewrite Hanswers. f_equal.
      symmetry. apply nth_error_nth. now rewrite nth_error_map, Hnth.
    + apply nth_error_None in Hnth.
      pose proof (Nat.mod_upper_bound i (length expressions)) as Hlt.
      destruct expressions; [congruence | cbn [length] in *; lia].
Qed.

Lemma forEach_uncatalogued (qs : list Question) (responses : list Val)
    (index : nat) (score : Z) (results : list Result) (s : State) :
  covenantAccepted s = true ->
  Forall (fun q => catalogued (correctAnswer q) = false) qs ->
  exists rs,
    submitResponse_forEach qs responses index score results s
    = (Return (score, results ++ rs), s)
    /\ Forall (fun r => verified r = false) rs.
Proof.
  intros Hacc Hqs. revert index results.
  induction Hqs as [| q qs Hq _ IH]; intros index results.
  - exists []. split; [cbn; now rewrite app_nil_r | constructor].
  - cbn [submitResponse_forEach]. unfold bind at 1.
    rewrite verify_uncatalogued by assumption. rewrite andb_false_r.
    destruct (IH (index + 1)
                (results ++ [ {| questionId := id q;
                                 studentAnswer :=
                                   match array_get responses index with
                                   | Some v => v
                                   | None => VUndefined
                                   end;
                                 result_correctAnswer := correctAnswer q;
                                 isCorrect :=
                                   strict_eq_string
                                     match array_get responses index with
                                     | Some v => v
                                     | None => VUndefined
                                     end (correctAnswer q);
                                 verified := false;
                                 result_explanation := explanation q |} ]))
      as (rs & Hrun & Hrs).
    eexists. split; [rewrite Hrun, <- app_assoc; reflexivity |].
    constructor; [reflexivity | exact Hrs].
Qed.

Lemma forEach_catalogued (qs : list Question) (responses : list Val)
    (index : nat) (score : Z) (results : list Result) (s : State) :
  ready s ->
  Forall (fun q => catalogued (correctAnswer q) = true) qs ->
  exists rs s',
    submitResponse_forEach qs responses index score results s
    = (Return ((score + Z.of_nat (right_answers (map correctAnswer qs) responses index))%Z,
               results ++ rs), s')
    /\ ready s'
    /\ verificationCount s' = (verificationCount s + Z.of_nat (length qs))%Z.
Proof.
  intros Hacc Hqs. revert index score results s Hacc.
  induction Hqs as [| q qs Hq _ IH]; intros index score results s Hacc.
  - exists [], s. cbn. rewrite app_nil_r, Z.add_0_r.
    split; [reflexivity | split; [exact Hacc | lia]].
  - cbn [submitResponse_forEach]. unfold bind at 1.
    rewrite verify_run, Hq by assumption.
    change (near_one 1) with true. rewrite andb_true_r.
    edestruct (IH (index + 1)) as (rs & s' & Hrun & Hacc' & Hcount);
      [| rewrite Hrun].
    { exact (logged_ready "verify" s Hacc). }
    do 2 eexists. split; [| split; [exact Hacc' |]].
    + rewrite <- app_assoc. cbn [map right_answers]. unfold response_at.
      match goal with
      | |- (Return (?a, _), _) = (Return (?b, _), _) => replace b with a
      end; [reflexivity |].
      destruct (strict_eq_string _ (correctAnswer q)); lia.
    + rewrite Hcount. cbn [logged verificationCount length]. lia.
Qed.

(** X15. In FCEducationalAssessment, whose core has accepted the covenant
    under an institution that has a text form (the constructor gives it a
    string), an assessment created with difficulty 'advanced' can never be
    passed: [verify] rejects every advanced expression, so [submitResponse]
    returns score 0 out of 10 for any responses, the right ones included,
    and marks every question as not verified. With any other difficulty the
    score is the number of questions, among the 10, whose response is
    strictly equal to the expected standard expression, and the 10
    verifications are logged. *)
Theorem assessment_scores (this : Object) (assessment : string)
    (level : option string) (student : string) (responses : list Val)
    (now1 now2 : Z) :
  covenantAccepted (fc this) = true ->
  printable (institutionId (fc this)) = true ->
  exists this1 result this2,
    createAssessment shuffleArray explain assessment level now1 this
      = (Return assessment, this1)
    /\ submitResponse percent student assessment responses now2 this1
       = (Return result, this2)
    /\ totalQuestions result = 10
    /\ (level = Some "advanced" ->
        score result = 0%Z
        /\ Forall (fun r => verified r = false) (results result)
        /\ fc this2 = fc this)
    /\ (level <> Some "advanced" ->
        score result
        = Z.of_nat (right_answers (firstn 10 standard_texts) responses 0)
        /\ verificationCount (fc this2) = (verificationCount (fc this) + 10)%Z).
Proof.
  intros Hacc Hprint.
  set (d := match level with Some d => d | None => "basic" end).
  set (expressions := if String.eqb d "advanced" then getAdvancedFractions
                      else getStandardFractions).
  assert (Hne : expressions <> [])
    by (unfold expressions; destruct (String.eqb d "advanced"); discriminate).
  destruct (createAssessment_loop_answers expressions 10 0 [] Hne)
    as (qs & Hloop & Hanswers).
  cbn [app] in Hloop.
  assert (Hlen : length qs = 10)
    by (rewrite <- (length_map correctAnswer), Hanswers, length_map, length_seq;
        reflexivity).
  set (this1 :=
         {| fc := fc this;
            students := students this;
            assessments :=
              map_set assessment
                {| assessment_id := assessment; questions := qs;
                   difficulty := d; created := now1 |}
                (assessments this) |}).
  assert (Hcreate : createAssessment shuffleArray explain assessment level now1 this
                    = (Return assessment, this1)).
  { unfold createAssessment. fold d. fold expressions. now rewrite Hloop. }
  assert (Hsubmit : forall score rs s',
            submitResponse_forEach qs responses 0 0%Z [] (fc this)
              = (Return (score, rs), s') ->
            exists result this2,
              submitResponse percent student assessment responses now2 this1
                = (Return result, this2)
              /\ Education.score result = score
              /\ results result = rs
              /\ totalQuestions result = 10
              /\ fc this2 = s').
  { intros score rs s' Hrun. unfold submitResponse.
    cbn [this1 assessments fc students]. rewrite map_get_set.
    cbn [questions]. rewrite Hrun.
    do 2 eexists. split; [reflexivity |].
    cbn [Education.score results totalQuestions fc]. repeat split. exact Hlen. }
  destruct (String.eqb d "advanced") eqn:Hd.
  - assert (Hqs : Forall (fun q => catalogued (correctAnswer q) = false) qs).
    { apply Forall_forall. intros q Hq.
      apply (in_map correctAnswer) in Hq. rewrite Hanswers in Hq.
      apply in_map_iff in Hq as (j & <- & _).
      assert (Hin : In (nth (j mod length expressions) (map expr expressions) "")
                       (map expr getAdvancedFractions)).
      { unfold expressions. apply nth_In. rewrite length_map.
        apply Nat.mod_upper_bound. discriminate. }
      pose proof (proj1 (Forall_forall _ _) advanced_texts_bit _ Hin) as [Hnz Hbit].
      unfold cell_bit in Hbit. apply String.eqb_neq in Hnz. rewrite Hnz in Hbit.
      destruct (catalogued _); [discriminate | reflexivity]. }
    destruct (forEach_uncatalogued qs responses 0 0%Z [] (fc this) Hacc Hqs)
      as (rs & Hrun & Hrs).
    destruct (Hsubmit _ _ _ Hrun) as (result & this2 & Hsub & Hscore & Hres & Htotal & Hfc).
    exists this1, result, this2.
    split; [exact Hcreate |]. split; [exact Hsub |]. split; [exact Htotal |]. split.
    + intros _. rewrite Hscore, Hres, Hfc. repeat split. exact Hrs.
    + intros Hlevel. exfalso. destruct level as [d' |].
      * apply Hlevel. f_equal. now apply String.eqb_eq.
      * discriminate Hd.
  - assert (Hqs : Forall (fun q => catalogued (correctAnswer q) = true) qs).
    { apply Forall_forall. intros q Hq.
      apply (in_map correctAnswer) in Hq. rewrite Hanswers in Hq.
      apply in_map_iff in Hq as (j & <- & _).
      apply catalogued_spec. unfold expressions, standard_texts.
      apply nth_In. rewrite length_map. apply Nat.mod_upper_bound. discriminate. }
    destruct (forEach_catalogued qs responses 0 0%Z [] (fc this)
                (conj Hacc Hprint) Hqs)
      as (rs & s' & Hrun & _ & Hcount).
    cbn [app] in Hrun.
    destruct (Hsubmit _ _ _ Hrun) as (result & this2 & Hsub & Hscore & Hres & Htotal & Hfc).
    exists this1, result, this2.
    split; [exact Hcreate |]. split; [exact Hsub |]. split; [exact Htotal |]. split.
    + intros ->. discriminate Hd.
    + intros _. rewrite Hscore, Hfc, Hcount, Hanswers, Hlen. split; reflexivity.
Qed.

End Assessments.

(** Ten right answers to an advanced assessment score nothing. *)
Lemma assessment_scores_witness :
  exists this1 result this2,
    createAssessment (fun l => l) expr "final" (Some "advanced") 1
      {| fc := demo; students := []; assessments := [] |}
      = (Return "final", this1)
    /\ submitResponse (fun _ _ => 0%Z) "student" "final"
         (map (fun f => VStr (expr f))
              (getAdvancedFractions ++ getAdvancedFractions)) 2 this1
       = (Return result, this2)
    /\ score result = 0%Z.
Proof.
  destruct (assessment_scores (fun l => l) expr (fun _ _ => 0%Z)
              {| fc := demo; students := []; assessments := [] |}
              "final" (Some "advanced") "student"
              (map (fun f => VStr (expr f))
                   (getAdvancedFractions ++ getAdvancedFractions)) 1 2
              eq_refl eq_refl)
    as (this1 & result & this2 & Hcreate & Hsubmit & _ & Hadvanced & _).
  exists this1, result, this2. split; [exact Hcreate |]. split; [exact Hsubmit |].
  exact (proj1 (Hadvanced eq_refl)).
Defined.

End Laws.
